(** * Event logging pipeline of the Statsig JS client: LogEvent and StatsigLogger

    A shallow embedding of [src/LogEvent.ts] and [src/StatsigLogger.ts].

    Conventions of the embedding.
    - JS numbers that hold lengths, counters and millisecond timestamps are
      integers in the source; they are [Z] here.
    - A JS object used as a string-keyed dictionary is a [gmap string _] of
      its own properties.  It is created by [{}], so it inherits from
      [Object.prototype]: [PlainObject.read] and [PlainObject.assign] are
      [o[key]] and [o[key] = v] with what that prototype adds, the accessor
      [__proto__] above all.
    - [Date.now()] is an input: the caller of a step supplies the readings.
    - Promise continuations ([then]/[catch]/[finally]) are separate steps that
      the environment fires later, with the outcome of the request. *)

From Stdlib Require Import ZArith Ascii String List DecimalString.
From stdpp Require Import base option list strings gmap sets.

Local Open Scope Z_scope.
Local Open Scope string_scope.
Local Open Scope list_scope.

(* ===================================================================== *)
(** * Property access on a plain object                                   *)
(* ===================================================================== *)

Module PlainObject.

(** The property names of [Object.prototype], which every object created by
    [{}] inherits. *)
Definition inherited : list string :=
  [ "constructor"; "hasOwnProperty"; "isPrototypeOf"; "propertyIsEnumerable";
    "toLocaleString"; "toString"; "valueOf"; "__proto__";
    "__defineGetter__"; "__defineSetter__"; "__lookupGetter__";
    "__lookupSetter__" ].

(** What [o[key]] evaluates to: an own property shadows the prototype;
    otherwise an inherited name gives the prototype's function (for
    [__proto__], the getter gives [Object.prototype] itself), and any other
    name gives [undefined]. *)
Inductive Got (V : Type) :=
| Own (v : V)
| FromPrototype
| Undefined.
Arguments Own {V} v.
Arguments FromPrototype {V}.
Arguments Undefined {V}.

Definition read {V : Type} (key : string) (o : gmap string V) : Got V :=
  match o !! key with
  | Some v => Own v
  | None => if bool_decide (key ∈ inherited) then FromPrototype else Undefined
  end.

(** The own properties after [o[key] = v].  An own property is overwritten.
    Without one, the assignment creates it, except at [__proto__]: there it
    runs the setter of [Object.prototype], which ignores a string or a number
    (and would swap the prototype for an object or [null]); no own property
    appears either way. *)
Definition assign {V : Type} (key : string) (v : V) (o : gmap string V)
    : gmap string V :=
  match o !! key with
  | Some _ => <[key := v]> o
  | None => if bool_decide (key = "__proto__") then o else <[key := v]> o
  end.

End PlainObject.

(* ===================================================================== *)
(** * LogEvent.ts                                                         *)
(* ===================================================================== *)

Module LogEvent.

(** Object identities.  A user handed to [setUser] is a reference; whether the
    event keeps that reference or a copy is what the sanitization property is
    about, so objects live in a heap. *)
Definition loc := positive.

Inductive Value :=
| VUndefined
| VNull
| VBool (b : bool)
| VNum (n : Z)
| VStr (s : string)
| VRef (l : loc).

(** Own enumerable properties of a plain object, and the store of objects. *)
Abbreviation Obj := (gmap string Value).
Abbreviation Heap := (gmap loc Obj).

Record LogEvent := mkLogEvent {
  eventName : string;
  user : option loc;            (* StatsigUser | null *)
  value : Value;                (* string | number | null *)
  metadata : option loc;        (* object | null *)
  time : Z;
  statsigMetadata : loc;        (* Record<string, string | number> *)
}.

(** [constructor(eventName)]: [statsigMetadata = {}] allocates an object,
    [time = Date.now()]. *)
Definition constructor (name : string) (now : Z) (h : Heap) : Heap * LogEvent :=
  let m := fresh (dom h) in
  (<[m := ∅]> h,
   {| eventName := name; user := None; value := VNull; metadata := None;
      time := now; statsigMetadata := m |}).

Definition getName (ev : LogEvent) : string := eventName ev.

Definition setValue (v : Value) (ev : LogEvent) : LogEvent :=
  {| eventName := eventName ev; user := user ev; value := v;
     metadata := metadata ev; time := time ev;
     statsigMetadata := statsigMetadata ev |}.

Definition setMetadata (m : option loc) (ev : LogEvent) : LogEvent :=
  {| eventName := eventName ev; user := user ev; value := value ev;
     metadata := m; time := time ev;
     statsigMetadata := statsigMetadata ev |}.

(** [this.statsigMetadata[key] = value] assigns in the object the field
    refers to. *)
Definition addStatsigMetadata (key : string) (v : Value)
    (h : Heap) (ev : LogEvent) : Heap :=
  alter (PlainObject.assign key v) (statsigMetadata ev) h.

(** [{ ...newUser }]: the own properties of [newUser], none for [null]. *)
Definition spread (newUser : option loc) (h : Heap) : Obj :=
  match newUser with
  | Some u => default ∅ (h !! u)
  | None => ∅
  end.

(** [setUser]: [this.user = { ...newUser }] allocates a new object, then
    [delete this.user.privateAttributes] removes the property from the object
    [this.user] now refers to. *)
Definition setUser (newUser : option loc) (h : Heap) (ev : LogEvent)
    : Heap * LogEvent :=
  let l := fresh (dom h) in
  let h1 := <[l := spread newUser h]> h in
  let ev1 :=
    {| eventName := eventName ev; user := Some l; value := value ev;
       metadata := metadata ev; time := time ev;
       statsigMetadata := statsigMetadata ev |} in
  let h2 :=
    match user ev1 with
    | Some u => alter (delete "privateAttributes") u h1
    | None => h1
    end in
  (h2, ev1).

Definition ref_or_null (r : option loc) : Value :=
  match r with Some l => VRef l | None => VNull end.

(** [toJsonObject]: a fresh record whose fields alias the event's. *)
Definition toJsonObject (ev : LogEvent) : Obj :=
  <["eventName" := VStr (eventName ev)]>
  (<["user" := ref_or_null (user ev)]>
  (<["value" := value ev]>
  (<["metadata" := ref_or_null (metadata ev)]>
  (<["time" := VNum (time ev)]>
  (<["statsigMetadata" := VRef (statsigMetadata ev)]> ∅))))).

(** The methods of the class other than [setUser], as calls a client can make
    on an event after it has been built. *)
Inductive Call :=
| CallGetName
| CallSetValue (v : Value)
| CallSetMetadata (m : option loc)
| CallAddStatsigMetadata (key : string) (v : Value)
| CallToJsonObject.

Definition call (c : Call) (s : Heap * LogEvent) : Heap * LogEvent :=
  match c with
  | CallGetName => s
  | CallSetValue v => (s.1, setValue v s.2)
  | CallSetMetadata m => (s.1, setMetadata m s.2)
  | CallAddStatsigMetadata k v => (addStatsigMetadata k v s.1 s.2, s.2)
  | CallToJsonObject => s
  end.

Definition calls (cs : list Call) (s : Heap * LogEvent) : Heap * LogEvent :=
  foldl (fun acc c => call c acc) s cs.

(** Every method of the class, [setUser] included. *)
Inductive Method :=
| Plain (c : Call)
| SetUser (newUser : option loc).

Definition invoke (m : Method) (s : Heap * LogEvent) : Heap * LogEvent :=
  match m with
  | Plain c => call c s
  | SetUser newUser => setUser newUser s.1 s.2
  end.

Definition invokes (ms : list Method) (s : Heap * LogEvent) : Heap * LogEvent :=
  foldl (fun acc m => invoke m acc) s ms.

(** The object a reference-valued field of a JSON object stands for. *)
Definition deref (h : Heap) (v : option Value) : option Obj :=
  match v with
  | Some (VRef l) => h !! l
  | _ => None
  end.

(** The event is well formed in the heap: its metadata object is allocated,
    and so is its user, which is another object and has no
    [privateAttributes]. *)
Definition sanitized (s : Heap * LogEvent) : Prop :=
  is_Some (s.1 !! statsigMetadata s.2) /\
  forall l, user s.2 = Some l ->
    l <> statsigMetadata s.2 /\
    exists o, s.1 !! l = Some o /\ o !! "privateAttributes" = None.

(** A heap a caller may hold: a user with private attributes, both plain
    objects. *)
Definition callerUser : Obj :=
  <["userID" := VStr "u-1"]> (<["privateAttributes" := VRef 2%positive]> ∅).

Definition callerHeap : Heap :=
  <[1%positive := callerUser]>
  (<[2%positive := <["email" := VStr "u-1@example.com"]> ∅]> ∅).

(** A heap in which the user keeps private data one level down, in the
    object its [custom] property refers to. *)
Definition nestedHeap : Heap :=
  <[1%positive := <["custom" := VRef 2%positive]> ∅]>
  (<[2%positive := <["privateAttributes" := VStr "secret"]> ∅]> ∅).

End LogEvent.

(* ===================================================================== *)
(** * StatsigLogger.ts                                                    *)
(* ===================================================================== *)

Module StatsigLogger.

Definition INTERNAL_EVENT_PREFIX : string := "statsig::".
Definition CONFIG_EXPOSURE_EVENT : string := INTERNAL_EVENT_PREFIX +:+ "config_exposure".
Definition LAYER_EXPOSURE_EVENT : string := INTERNAL_EVENT_PREFIX +:+ "layer_exposure".
Definition GATE_EXPOSURE_EVENT : string := INTERNAL_EVENT_PREFIX +:+ "gate_exposure".
Definition LOG_FAILURE_EVENT : string := INTERNAL_EVENT_PREFIX +:+ "log_event_failed".
Definition DEFAULT_VALUE_WARNING : string :=
  INTERNAL_EVENT_PREFIX +:+ "default_value_type_mismatch".

Definition MS_RETRY_LOGS_CUTOFF : Z := 5 * 24 * 60 * 60 * 1000.
Definition MAX_BATCHES_TO_RETRY : Z := 100.
Definition MAX_FAILED_EVENTS : Z := 1000.
Definition MAX_LOCAL_STORAGE_SIZE : Z := 1024 * MAX_FAILED_EVENTS.

(** [type FailedLogEventBody = { events; statsigMetadata; time }]. *)
Record FailedLogEventBody (Event Meta : Type) := mkBody {
  events : list Event;
  statsigMetadata : Meta;
  time : Z;
}.
Arguments mkBody {Event Meta} _ _ _.
Arguments events {Event Meta} _.
Arguments statsigMetadata {Event Meta} _.
Arguments time {Event Meta} _.

(** [EvaluationDetails] (declared in StatsigStore, which is not part of the
    sources at hand): the two fields the logger reads. *)
Module EvaluationDetails.
Record t := mk { reason : string; time : Z }.
End EvaluationDetails.

(** Values of the [Record<string, unknown>] built for an exposure. *)
Inductive MetaValue :=
| MetaStr (s : string)
| MetaNum (n : Z).

(** What [JSON.parse] can hand to the replay loop.  An element of the parsed
    array is of type [any]; the loop sorts it by the three tests
    [requestBody != null], [requestBody.events] and
    [Array.isArray(requestBody.events)], and uses it at the declared type
    [FailedLogEventBody] when all three pass. *)
Inductive RequestBody (Event Meta : Type) :=
| BodyNull
| BodyEventsFalsy
| BodyEventsNotArray
| BodyOk (b : FailedLogEventBody Event Meta).
Arguments BodyNull {Event Meta}.
Arguments BodyEventsFalsy {Event Meta}.
Arguments BodyEventsNotArray {Event Meta}.
Arguments BodyOk {Event Meta} _.

Inductive Parsed (Event Meta : Type) :=
| ParseThrows                      (* SyntaxError *)
| ParsedNotIterable                (* [for ... of] throws a TypeError *)
| ParsedIterable (requestBodies : list (RequestBody Event Meta)).
Arguments ParseThrows {Event Meta}.
Arguments ParsedNotIterable {Event Meta}.
Arguments ParsedIterable {Event Meta} _.

(** The collaborators of the logger whose code is not part of the sources at
    hand, taken as parameters: the event representation and [makeLogEvent],
    the SDK options, the identity's metadata object, the storage key and the
    JSON codec. *)
Class Host := {
  Event : Type;
  StatsigUser : Type;
  StatsigMetadata : Type;
  (* StatsigSDKOptions *)
  disableCurrentPageLogging : bool;
  loggingBufferMaxSize : Z;
  (* Identity: this._identity._statsigMetadata *)
  _statsigMetadata : StatsigMetadata;
  (* utils/Constants *)
  STATSIG_LOCAL_STORAGE_LOGGING_REQUEST_KEY : string;
  (* makeLogEvent(eventName, user, statsigMetadata, value, metadata,
     secondaryExposures), with the clock reading it may take *)
  makeLogEvent :
    Z -> string -> option StatsigUser -> StatsigMetadata -> option string ->
    gmap string MetaValue -> option (list (gmap string string)) -> Event;
  (* the effect of [event.statsigMetadata.currentPage = page] *)
  setCurrentPage : string -> Event -> Event;
  JSON_stringify : list (FailedLogEventBody Event StatsigMetadata) -> string;
  JSON_parse : string -> Parsed Event StatsigMetadata;
}.

(** What the environment answers during one synchronous step. *)
Record Ambient := mkAmbient {
  href : option string;        (* window.location.href, when it is a string *)
  supportsKeepalive : bool;    (* this._network.supportsKeepalive() *)
  navigator_sendBeacon : bool; (* navigator is defined and has sendBeacon *)
  sendLogBeacon : bool;        (* result of this._network.sendLogBeacon(..) *)
  clock : nat -> Z;            (* n-th reading of Date.now() in the step *)
}.

(** The same environment once the first clock reading has been consumed. *)
Definition later (a : Ambient) : Ambient :=
  {| href := href a; supportsKeepalive := supportsKeepalive a;
     navigator_sendBeacon := navigator_sendBeacon a;
     sendLogBeacon := sendLogBeacon a;
     clock := fun n => clock a (S n) |}.

(** How a rejected request presents itself to the [catch] handler of [flush]:
    [error.text] is not a function, or it is and the promise it returns
    resolves (or never does). *)
Inductive TextField :=
| TextAbsent
| TextPending
| TextResolved (errorText : string).

Record Failure := mkFailure {
  cause : string;              (* the failure-reason key of the error *)
  text : TextField;
}.

Inductive Outcome :=
| Delivered
| Failed (error : Failure).

(** Modelled from the spec: [ErrorBoundary._logError] is not part of the
    sources at hand.  Section 4.3 of the specification: an internal diagnostic
    event is reported once per distinct failure-reason key per process
    lifetime. *)
Record ErrorBoundary := mkBoundary {
  seen : gset string;
  reported : list (string * string);   (* (tag, failure-reason key) *)
}.

(** Modelled from the spec: [ErrorBoundary._logError(tag, error, extra)], a
    report unless the failure-reason key of [error] has been seen. *)
Definition _logError (tag : string) (error : Failure) (b : ErrorBoundary)
    : ErrorBoundary :=
  if bool_decide (cause error ∈ seen b) then b
  else {| seen := {[cause error]} ∪ seen b;
          reported := reported b ++ [(tag, cause error)] |}.

(** [parts[0]] of [href.split(/[?#]/)]. *)
Fixpoint beforeQuery (s : string) : string :=
  match s with
  | EmptyString => EmptyString
  | String c r =>
      if (Ascii.eqb c "?"%char || Ascii.eqb c "#"%char)%bool then EmptyString
      else String c (beforeQuery r)
  end.

(** [String(b)] for a boolean. *)
Definition String_of_bool (b : bool) : string := if b then "true" else "false".

(** Whether the separator of the layer key occurs in a component. *)
Fixpoint hasSeparator (s : string) : bool :=
  match s with
  | EmptyString => false
  | String c r => (Ascii.eqb c "|"%char || hasSeparator r)%bool
  end.

(** Whether a character that ends the page part of a location occurs. *)
Fixpoint hasQueryOrFragment (s : string) : bool :=
  match s with
  | EmptyString => false
  | String c r =>
      (Ascii.eqb c "?"%char || Ascii.eqb c "#"%char || hasQueryOrFragment r)%bool
  end.

(** The [dedupeKey] of each kind of exposure; [+] associates to the left. *)
Definition gateDedupeKey (gateName : string) (gateValue : bool)
    (ruleID reason : string) : string :=
  ((gateName +:+ String_of_bool gateValue) +:+ ruleID) +:+ reason.

Definition configDedupeKey (configName ruleID reason : string) : string :=
  (configName +:+ ruleID) +:+ reason.

Definition layerDedupeKey (configName ruleID allocatedExperiment
    parameterName : string) (isExplicitParameter : bool) (reason : string)
    : string :=
  String.concat "|"
    [configName; ruleID; allocatedExperiment; parameterName;
     String_of_bool isExplicitParameter; reason].

Abbreviation Body := (FailedLogEventBody Event StatsigMetadata).

Section Logger.
Context `{H : Host}.

(** Requests handed to the transport ([StatsigNetwork]), oldest first. *)
Inductive Request :=
| SendLogBeacon (evs : list Event) (meta : StatsigMetadata)
| PostLogEvents (evs : list Event) (meta : StatsigMetadata)
    (retries backoff : Z) (useKeepalive : bool)
| PostSavedRequest (requestBody : Body).

(** Continuations waiting for the outcome of a request. *)
Inductive Task :=
| FlushContinuation (oldQueue : list Event) (isClosing : bool)
| ReplayContinuation (requestBody : Body) (fireAndForget : bool).

(** The fields of the class, followed by the state of its collaborators:
    [StatsigLocalStorage] (modelled from the spec, section 6: get, set and
    remove on string keys), the transport's log of requests and the error
    boundary.  [flushInterval] is the timer handle and is left to the
    environment, which fires [flush]. *)
Record State := mkState {
  queue : list Event;
  loggedErrors : gset string;
  failedLogEvents : list Body;
  exposureDedupeKeys : gmap string Z;
  failedLogEventCount : Z;
  localStorage : gmap string string;
  network : list Request;
  errorBoundary : ErrorBoundary;
}.

Definition with_queue (q : list Event) (w : State) : State :=
  {| queue := q; loggedErrors := loggedErrors w;
     failedLogEvents := failedLogEvents w;
     exposureDedupeKeys := exposureDedupeKeys w;
     failedLogEventCount := failedLogEventCount w;
     localStorage := localStorage w; network := network w;
     errorBoundary := errorBoundary w |}.

Definition with_loggedErrors (s : gset string) (w : State) : State :=
  {| queue := queue w; loggedErrors := s;
     failedLogEvents := failedLogEvents w;
     exposureDedupeKeys := exposureDedupeKeys w;
     failedLogEventCount := failedLogEventCount w;
     localStorage := localStorage w; network := network w;
     errorBoundary := errorBoundary w |}.

Definition with_failedLogEvents (l : list Body) (w : State) : State :=
  {| queue := queue w; loggedErrors := loggedErrors w;
     failedLogEvents := l;
     exposureDedupeKeys := exposureDedupeKeys w;
     failedLogEventCount := failedLogEventCount w;
     localStorage := localStorage w; network := network w;
     errorBoundary := errorBoundary w |}.

Definition with_exposureDedupeKeys (m : gmap string Z) (w : State) : State :=
  {| queue := queue w; loggedErrors := loggedErrors w;
     failedLogEvents := failedLogEvents w;
     exposureDedupeKeys := m;
     failedLogEventCount := failedLogEventCount w;
     localStorage := localStorage w; network := network w;
     errorBoundary := errorBoundary w |}.

Definition with_failedLogEventCount (n : Z) (w : State) : State :=
  {| queue := queue w; loggedErrors := loggedErrors w;
     failedLogEvents := failedLogEvents w;
     exposureDedupeKeys := exposureDedupeKeys w;
     failedLogEventCount := n;
     localStorage := localStorage w; network := network w;
     errorBoundary := errorBoundary w |}.

Definition with_localStorage (m : gmap string string) (w : State) : State :=
  {| queue := queue w; loggedErrors := loggedErrors w;
     failedLogEvents := failedLogEvents w;
     exposureDedupeKeys := exposureDedupeKeys w;
     failedLogEventCount := failedLogEventCount w;
     localStorage := m; network := network w;
     errorBoundary := errorBoundary w |}.

Definition with_network (l : list Request) (w : State) : State :=
  {| queue := queue w; loggedErrors := loggedErrors w;
     failedLogEvents := failedLogEvents w;
     exposureDedupeKeys := exposureDedupeKeys w;
     failedLogEventCount := failedLogEventCount w;
     localStorage := localStorage w; network := l;
     errorBoundary := errorBoundary w |}.

Definition with_errorBoundary (b : ErrorBoundary) (w : State) : State :=
  {| queue := queue w; loggedErrors := loggedErrors w;
     failedLogEvents := failedLogEvents w;
     exposureDedupeKeys := exposureDedupeKeys w;
     failedLogEventCount := failedLogEventCount w;
     localStorage := localStorage w; network := network w;
     errorBoundary := b |}.

(** The constructor, over the storage the process starts with.  [_init] only
    registers timers and listeners that call [flush]. *)
Definition constructor (storage : gmap string string) : State :=
  {| queue := []; loggedErrors := ∅; failedLogEvents := [];
     exposureDedupeKeys := ∅; failedLogEventCount := 0;
     localStorage := storage; network := [];
     errorBoundary := {| seen := ∅; reported := [] |} |}.


(** [_shouldLogExposure(key)], with [now] the reading of [Date.now()].
    [exposureDedupeKeys] is a plain object: [lastTime] is what
    [this.exposureDedupeKeys[key]] reads, and the two assignments are
    [this.exposureDedupeKeys[key] = now].  A value read from the prototype is
    neither [null] nor a number, so [lastTime == null] is false and so is
    [lastTime >= now - 600 * 1000] (the operand converts to [NaN]): the call
    falls through to the last assignment. *)
Definition _shouldLogExposure (key : string) (now : Z) (w : State)
    : bool * State :=
  let recorded :=
    with_exposureDedupeKeys
      (PlainObject.assign key now (exposureDedupeKeys w)) w in
  match PlainObject.read key (exposureDedupeKeys w) with
  | PlainObject.Undefined => (true, recorded)
  | PlainObject.Own lastTime =>
      if bool_decide (lastTime >= now - 600 * 1000) then (false, w)
      else (true, recorded)
  | PlainObject.FromPrototype => (true, recorded)
  end.

Definition _clearLocalStorageRequests (w : State) : State :=
  with_localStorage
    (delete STATSIG_LOCAL_STORAGE_LOGGING_REQUEST_KEY (localStorage w)) w.

Definition _saveFailedRequests (w : State) : State :=
  if bool_decide (Z.of_nat (length (failedLogEvents w)) > 0) then
    let requestsCopy := JSON_stringify (failedLogEvents w) in
    if bool_decide (Z.of_nat (String.length requestsCopy) > MAX_LOCAL_STORAGE_SIZE)
    then _clearLocalStorageRequests w
    else with_localStorage
           (<[STATSIG_LOCAL_STORAGE_LOGGING_REQUEST_KEY := requestsCopy]>
              (localStorage w)) w
  else w.

Definition _addFailedRequest (requestBody : Body) (now : Z) (w : State) : State :=
  if bool_decide (time requestBody < now - MS_RETRY_LOGS_CUTOFF) then w
  else if bool_decide (Z.of_nat (length (failedLogEvents w)) > MAX_BATCHES_TO_RETRY)
  then w
  else
    let additionalEvents := Z.of_nat (length (events requestBody)) in
    if bool_decide (failedLogEventCount w + additionalEvents > MAX_FAILED_EVENTS)
    then w
    else
      with_failedLogEventCount (failedLogEventCount w + additionalEvents)
        (with_failedLogEvents (failedLogEvents w ++ [requestBody]) w).

Definition _newFailedRequest (name : string) (q : list Event) (now : Z)
    (w : State) : State :=
  if bool_decide (name ∈ loggedErrors w) then w
  else
    let w1 := with_loggedErrors ({[name]} ∪ loggedErrors w) w in
    let w2 :=
      with_failedLogEvents
        (failedLogEvents w1 ++
           [{| events := q; statsigMetadata := _statsigMetadata; time := now |}])
        w1 in
    _saveFailedRequests w2.

(** [flush], up to the point where it returns: the continuation of the
    request, if one was posted, is returned as a pending task. *)
Definition flush (isClosing : bool) (a : Ambient) (w : State)
    : State * list Task :=
  if bool_decide (Z.of_nat (length (queue w)) = 0) then (w, [])
  else
    let oldQueue := queue w in
    let w1 := with_queue [] w in
    if (isClosing && negb (supportsKeepalive a) && navigator_sendBeacon a)%bool
    then
      let w2 :=
        with_network (network w1 ++ [SendLogBeacon oldQueue _statsigMetadata]) w1 in
      if negb (sendLogBeacon a) then
        let w3 := with_queue (oldQueue ++ queue w2) w2 in
        let w4 :=
          if bool_decide (Z.of_nat (length (queue w3)) > 0) then
            with_queue []
              (_addFailedRequest
                 {| events := queue w3; statsigMetadata := _statsigMetadata;
                    time := clock a 0 |}
                 (clock a 1) w3)
          else w3 in
        (_saveFailedRequests w4, [])
      else (w2, [])
    else
      (with_network
         (network w1 ++ [PostLogEvents oldQueue _statsigMetadata 3 1000 isClosing])
         w1,
       [FlushContinuation oldQueue isClosing]).

(** The [catch] handler of [flush].  With [error.text] a function the report
    to the error boundary waits for the text; the boundary and the logger
    share no state, so the report is placed first in both cases. *)
Definition flush_catch (oldQueue : list Event) (error : Failure) (a : Ambient)
    (w : State) : State :=
  let w1 :=
    match text error with
    | TextPending => w
    | TextAbsent | TextResolved _ =>
        with_errorBoundary (_logError LOG_FAILURE_EVENT error (errorBoundary w)) w
    end in
  _newFailedRequest LOG_FAILURE_EVENT oldQueue (clock a 0) w1.

(** The [finally] handler of [flush]. *)
Definition flush_finally (isClosing : bool) (a : Ambient) (w : State) : State :=
  if isClosing then
    let w1 :=
      if bool_decide (Z.of_nat (length (queue w)) > 0) then
        with_queue []
          (_addFailedRequest
             {| events := queue w; statsigMetadata := _statsigMetadata;
                time := clock a 0 |}
             (clock a 1) w)
      else w in
    _saveFailedRequests w1
  else w.

(** The [try] block of [log]: the event as it is stored, with the current
    page attached when page logging is on and the location is readable. *)
Definition stamped (a : Ambient) (event : Event) : Event :=
  if negb disableCurrentPageLogging then
    match href a with
    | Some h => setCurrentPage (beforeQuery h) event
    | None => event
    end
  else event.

Definition log (a : Ambient) (event : Event) (w : State) : State * list Task :=
  let w1 := with_queue (queue w ++ [stamped a event]) w in
  if bool_decide (Z.of_nat (length (queue w1)) >= loggingBufferMaxSize)
  then flush false a w1
  else (w1, []).

Definition manual (isManualExposure : bool) (metadata : gmap string MetaValue)
    : gmap string MetaValue :=
  if isManualExposure then <["isManualExposure" := MetaStr "true"]> metadata
  else metadata.

Definition logGateExposure (a : Ambient) (user : option StatsigUser)
    (gateName : string) (gateValue : bool) (ruleID : string)
    (secondaryExposures : list (gmap string string))
    (details : EvaluationDetails.t) (isManualExposure : bool) (w : State)
    : State * list Task :=
  let dedupeKey :=
    gateDedupeKey gateName gateValue ruleID (EvaluationDetails.reason details) in
  let r := _shouldLogExposure dedupeKey (clock a 0) w in
  if negb r.1 then (r.2, [])
  else
    let metadata : gmap string MetaValue :=
      <["gate" := MetaStr gateName]>
      (<["gateValue" := MetaStr (String_of_bool gateValue)]>
      (<["ruleID" := MetaStr ruleID]>
      (<["reason" := MetaStr (EvaluationDetails.reason details)]>
      (<["time" := MetaNum (EvaluationDetails.time details)]> ∅)))) in
    let gateExposure :=
      makeLogEvent (clock a 1) GATE_EXPOSURE_EVENT user _statsigMetadata None
        (manual isManualExposure metadata) (Some secondaryExposures) in
    log a gateExposure r.2.

Definition logConfigExposure (a : Ambient) (user : option StatsigUser)
    (configName : string) (ruleID : string)
    (secondaryExposures : list (gmap string string))
    (details : EvaluationDetails.t) (isManualExposure : bool) (w : State)
    : State * list Task :=
  let dedupeKey :=
    configDedupeKey configName ruleID (EvaluationDetails.reason details) in
  let r := _shouldLogExposure dedupeKey (clock a 0) w in
  if negb r.1 then (r.2, [])
  else
    let metadata : gmap string MetaValue :=
      <["config" := MetaStr configName]>
      (<["ruleID" := MetaStr ruleID]>
      (<["reason" := MetaStr (EvaluationDetails.reason details)]>
      (<["time" := MetaNum (EvaluationDetails.time details)]> ∅))) in
    let configExposure :=
      makeLogEvent (clock a 1) CONFIG_EXPOSURE_EVENT user _statsigMetadata None
        (manual isManualExposure metadata) (Some secondaryExposures) in
    log a configExposure r.2.

Definition logLayerExposure (a : Ambient) (user : option StatsigUser)
    (configName : string) (ruleID : string)
    (secondaryExposures : list (gmap string string))
    (allocatedExperiment parameterName : string) (isExplicitParameter : bool)
    (details : EvaluationDetails.t) (isManualExposure : bool) (w : State)
    : State * list Task :=
  let dedupeKey :=
    layerDedupeKey configName ruleID allocatedExperiment parameterName
      isExplicitParameter (EvaluationDetails.reason details) in
  let r := _shouldLogExposure dedupeKey (clock a 0) w in
  if negb r.1 then (r.2, [])
  else
    let metadata : gmap string MetaValue :=
      <["config" := MetaStr configName]>
      (<["ruleID" := MetaStr ruleID]>
      (<["allocatedExperiment" := MetaStr allocatedExperiment]>
      (<["parameterName" := MetaStr parameterName]>
      (<["isExplicitParameter" := MetaStr (String_of_bool isExplicitParameter)]>
      (<["reason" := MetaStr (EvaluationDetails.reason details)]>
      (<["time" := MetaNum (EvaluationDetails.time details)]> ∅)))))) in
    let configExposure :=
      makeLogEvent (clock a 1) LAYER_EXPOSURE_EVENT user _statsigMetadata None
        (manual isManualExposure metadata) (Some secondaryExposures) in
    log a configExposure r.2.

Definition logConfigDefaultValueFallback (a : Ambient)
    (user : option StatsigUser) (message : string)
    (metadata : gmap string MetaValue) (w : State) : State * list Task :=
  let defaultValueEvent :=
    makeLogEvent (clock a 0) DEFAULT_VALUE_WARNING user _statsigMetadata
      (Some message) metadata None in
  let r := log a defaultValueEvent w in
  (with_loggedErrors ({[message]} ∪ loggedErrors r.1) r.1, r.2).

(** One turn of the replay loop of [sendSavedRequests]. *)
Definition replayOne (fireAndForget : bool) (acc : State * list Task)
    (requestBody : RequestBody Event StatsigMetadata) : State * list Task :=
  match requestBody with
  | BodyOk b =>
      (with_network (network acc.1 ++ [PostSavedRequest b]) acc.1,
       acc.2 ++ [ReplayContinuation b fireAndForget])
  | BodyNull | BodyEventsFalsy | BodyEventsNotArray => acc
  end.

(** [sendSavedRequests], up to the point where it returns. *)
Definition sendSavedRequests (w : State) : State * list Task :=
  match localStorage w !! STATSIG_LOCAL_STORAGE_LOGGING_REQUEST_KEY with
  | None => (_clearLocalStorageRequests w, [])
  | Some failedRequests =>
      let fireAndForget :=
        bool_decide (Z.of_nat (String.length failedRequests) > MAX_LOCAL_STORAGE_SIZE) in
      let r :=
        match JSON_parse failedRequests with
        | ParsedIterable requestBodies =>
            foldl (replayOne fireAndForget) (w, []) requestBodies
        | ParseThrows | ParsedNotIterable => (w, [])
        end in
      (_clearLocalStorageRequests r.1, r.2)
  end.

(** The [catch] handler of a replayed request. *)
Definition replay_catch (requestBody : Body) (fireAndForget : bool) (a : Ambient)
    (w : State) : State :=
  if fireAndForget then w
  else _addFailedRequest requestBody (clock a 0) w.

(** A pending continuation runs with the outcome of its request. *)
Definition settle (t : Task) (o : Outcome) (a : Ambient) (w : State) : State :=
  match t with
  | FlushContinuation oldQueue isClosing =>
      flush_finally isClosing (later a)
        match o with
        | Delivered => w
        | Failed error => flush_catch oldQueue error a w
        end
  | ReplayContinuation requestBody fireAndForget =>
      match o with
      | Delivered => w
      | Failed _ => replay_catch requestBody fireAndForget a w
      end
  end.

(** The logger in its event loop: the application logs and flushes, startup
    replays, and the environment completes pending requests in any order. *)
Inductive Op :=
| OpLog (event : Event)
| OpFallback (user : option StatsigUser) (message : string)
    (metadata : gmap string MetaValue)
| OpFlush (isClosing : bool)
| OpSendSavedRequests
| OpSettle (i : nat) (o : Outcome).

Definition step (sys : State * list Task) (x : Ambient * Op)
    : State * list Task :=
  match x.2 with
  | OpLog event =>
      let r := log x.1 event sys.1 in (r.1, sys.2 ++ r.2)
  | OpFallback user message metadata =>
      let r := logConfigDefaultValueFallback x.1 user message metadata sys.1 in
      (r.1, sys.2 ++ r.2)
  | OpFlush isClosing =>
      let r := flush isClosing x.1 sys.1 in (r.1, sys.2 ++ r.2)
  | OpSendSavedRequests =>
      let r := sendSavedRequests sys.1 in (r.1, sys.2 ++ r.2)
  | OpSettle i o =>
      match sys.2 !! i with
      | Some t => (settle t o x.1 sys.1, delete i sys.2)
      | None => sys
      end
  end.

Definition run (ops : list (Ambient * Op)) (sys : State * list Task)
    : State * list Task :=
  foldl step sys ops.

(** The events of a request that [flush] handed to the transport. *)
Definition batch (r : Request) : list Event :=
  match r with
  | SendLogBeacon evs _ => evs
  | PostLogEvents evs _ _ _ _ => evs
  | PostSavedRequest _ => []
  end.

(** All batches handed to delivery so far, oldest first. *)
Definition batches (w : State) : list (list Event) :=
  batch <$> network w.

(** The events the application enqueued in a run, in the order of the calls. *)
Definition enqueuedBy (x : Ambient * Op) : list Event :=
  match x.2 with
  | OpLog event => [stamped x.1 event]
  | OpFallback user message metadata =>
      [stamped x.1
         (makeLogEvent (clock x.1 0) DEFAULT_VALUE_WARNING user _statsigMetadata
            (Some message) metadata None)]
  | OpFlush _ | OpSendSavedRequests | OpSettle _ _ => []
  end.

Definition enqueued (ops : list (Ambient * Op)) : list Event :=
  ops ≫= enqueuedBy.

(** What has been handed to delivery, followed by what is still queued. *)
Definition pipeline (w : State) : list Event :=
  concat (batches w) ++ queue w.

(** The error boundary has reported each failure-reason key at most once,
    and remembers every key it reported. *)
Definition oncePerKey (b : ErrorBoundary) : Prop :=
  NoDup (reported b).*2 /\ forall k, k ∈ (reported b).*2 -> k ∈ seen b.

(** A dedup check whose answer is discarded. *)
Definition probe (w : State) (p : string * Z) : State :=
  (_shouldLogExposure p.1 p.2 w).2.

(** The elements of a parsed payload that the replay loop re-submits. *)
Definition replayable (requestBody : RequestBody Event StatsigMetadata)
    : option Body :=
  match requestBody with
  | BodyOk b => Some b
  | BodyNull | BodyEventsFalsy | BodyEventsNotArray => None
  end.

Definition replayed (failedRequests : string) : list Body :=
  match JSON_parse failedRequests with
  | ParsedIterable requestBodies => omap replayable requestBodies
  | ParseThrows | ParsedNotIterable => []
  end.

(** Completing the given continuations, each with its own outcome. *)
Definition settleAll (ts : list Task) (os : list (Outcome * Ambient))
    (w : State) : State :=
  foldl (fun acc x => settle x.1 x.2.1 x.2.2 acc) w (zip ts os).

(** ** The rest of the class *)



(** ** Notions used to state properties of runs *)

(** A call of [flush(true)] by the application or a lifecycle signal. *)
Definition isTerminating (x : Ambient * Op) : bool :=
  match x.2 with
  | OpFlush isClosing => isClosing
  | OpLog _ | OpFallback _ _ _ | OpSendSavedRequests | OpSettle _ _ => false
  end.

(** A continuation that will not sweep the queue. *)
Definition keepsQueue (t : Task) : bool :=
  match t with
  | FlushContinuation _ isClosing => negb isClosing
  | ReplayContinuation _ _ => true
  end.

(** The buffer is below its maximum, or empty. *)
Definition belowBufferMax (w : State) : Prop :=
  Z.of_nat (length (queue w)) < loggingBufferMaxSize \/ queue w = [].

(** All events held by the Failure Store. *)
Definition storedEvents (w : State) : list Event :=
  failedLogEvents w ≫= events.

(** What every reachable Failure Store satisfies. *)
Definition storeInvariant (w : State) : Prop :=
  0 <= failedLogEventCount w <= MAX_FAILED_EVENTS /\
  failedLogEventCount w <= Z.of_nat (length (storedEvents w)) /\
  (Z.of_nat (length (failedLogEvents w)) <= MAX_BATCHES_TO_RETRY + 1 \/
   (LOG_FAILURE_EVENT ∈ loggedErrors w /\
    Z.of_nat (length (failedLogEvents w)) <= MAX_BATCHES_TO_RETRY + 2)).

(** The Failure Store and its bookkeeping only grow from [w] to [w']. *)
Definition storeGrows (w w' : State) : Prop :=
  failedLogEvents w `prefix_of` failedLogEvents w' /\
  loggedErrors w ⊆ loggedErrors w' /\
  failedLogEventCount w <= failedLogEventCount w'.

(** The three things a step can do to the storage: nothing, remove the
    logger's key, or write a payload within the size limit under it. *)
Definition storageStep (m m' : gmap string string) : Prop :=
  m' = m \/
  m' = delete STATSIG_LOCAL_STORAGE_LOGGING_REQUEST_KEY m \/
  exists requestsCopy,
    Z.of_nat (String.length requestsCopy) <= MAX_LOCAL_STORAGE_SIZE /\
    m' = <[STATSIG_LOCAL_STORAGE_LOGGING_REQUEST_KEY := requestsCopy]> m.

(** The payload under the logger's key, if any, is within the size limit. *)
Definition payloadFits (storage : gmap string string) : Prop :=
  forall failedRequests,
    storage !! STATSIG_LOCAL_STORAGE_LOGGING_REQUEST_KEY = Some failedRequests ->
    Z.of_nat (String.length failedRequests) <= MAX_LOCAL_STORAGE_SIZE.

(** The times at which a check of [key] answered true, along a sequence of
    checks of any keys. *)
Fixpoint loggedTimes (key : string) (probes : list (string * Z)) (w : State)
    : list Z :=
  match probes with
  | [] => []
  | p :: rest =>
      let r := _shouldLogExposure p.1 p.2 w in
      (if (bool_decide (p.1 = key) && r.1)%bool then [p.2] else [])
        ++ loggedTimes key rest r.2
  end.

(** Each time of the list is more than 600 000 ms after the one before it,
    the first after [last] when there is one. *)
Fixpoint spacedFrom (last : option Z) (times : list Z) : Prop :=
  match times with
  | [] => True
  | t :: rest =>
      match last with
      | Some t0 => t - t0 > 600000
      | None => True
      end /\ spacedFrom (Some t) rest
  end.

(** The flag a replay continuation carries. *)
Definition fireAndForgetOf (t : Task) : bool :=
  match t with
  | ReplayContinuation _ fireAndForget => fireAndForget
  | FlushContinuation _ _ => false
  end.

End Logger.

(** ** A concrete host

    Events are their names, the identity's metadata is trivial, the buffer
    holds 100 events, and the codec writes the event names of a batch list
    and reads any non-empty payload back as one saved batch. *)
Definition nameHost : Host := {|
  Event := string;
  StatsigUser := string;
  StatsigMetadata := unit;
  disableCurrentPageLogging := false;
  loggingBufferMaxSize := 100;
  _statsigMetadata := tt;
  STATSIG_LOCAL_STORAGE_LOGGING_REQUEST_KEY := "STATSIG_LOCAL_STORAGE_LOGGING_REQUEST";
  makeLogEvent := fun _ eventName _ _ _ _ _ => eventName;
  setCurrentPage := fun _ event => event;
  JSON_stringify := fun bodies =>
    String.concat ";" (map (fun b => String.concat "," (events b)) bodies);
  JSON_parse := fun failedRequests =>
    if bool_decide (failedRequests = "") then ParseThrows
    else ParsedIterable
           [BodyNull;
            BodyOk {| events := [failedRequests]; statsigMetadata := tt; time := 0 |}];
|}.

(** A page being torn down at time [now]: no keepalive, and the beacon is
    there but refuses the payload. *)
Definition teardown (now : Z) : Ambient :=
  {| href := None; supportsKeepalive := false; navigator_sendBeacon := true;
     sendLogBeacon := false; clock := fun _ => now |}.

(** A page at time [now] during normal operation. *)
Definition browsing (now : Z) : Ambient :=
  {| href := Some "https://example.com/app?tab=1#top"; supportsKeepalive := true;
     navigator_sendBeacon := true; sendLogBeacon := true;
     clock := fun _ => now |}.

(** [n] events logged and swept by a terminating flush whose beacon fails. *)
Definition sweep (n : nat) (w : @State nameHost) : @State nameHost :=
  (flush true (teardown 0)
     (Nat.iter n (fun acc => (@log nameHost (teardown 0) "click" acc).1) w)).1.

(** A payload of [n] characters. *)
Definition payloadOfSize (n : positive) : string :=
  Pos.iter (String "x"%char) EmptyString n.

(** The logger of the concrete host right after construction, on an empty
    storage. *)
Definition start : @State nameHost := @constructor nameHost ∅.

(** A rejected request whose error carries no [text] function. *)
Definition networkDown : Failure := {| cause := "TypeError"; text := TextAbsent |}.

(** One event logged, flushed, and the delivery failing after its retries. *)
Definition failedDelivery (now : Z) (event : string)
    : list (Ambient * @Op nameHost) :=
  [(browsing now, @OpLog nameHost event);
   (browsing now, @OpFlush nameHost false);
   (browsing (now + 3000), @OpSettle nameHost 0 (Failed networkDown))].

(** ** A host with a JSON codec

    Events are objects with a name and, once [log] has stamped them, the
    current page.  [Json.stringify] writes a list of batches the way
    [JSON.stringify] does; [Json.parse] reads the texts of that shape, with
    blanks allowed around the array, as [JSON.parse] does.  Any other text is
    answered with [ParseThrows]: for a text that is valid JSON of another
    shape this is not the answer of [JSON.parse], and the runs below do not
    parse such texts. *)
Record PageEvent := mkPageEvent {
  label : string;                 (* eventName *)
  currentPage : option string;    (* statsigMetadata.currentPage, when set *)
}.

Module Json.

Definition quote : ascii := "034"%char.
Definition backslash : ascii := "092"%char.

Definition hexDigit (n : N) : ascii :=
  if (n <? 10)%N then ascii_of_N (48 + n) else ascii_of_N (87 + n).

(** The escapes of a string literal: the quote, the backslash and the control
    characters. *)
Definition escapeChar (c : ascii) : string :=
  let n := N_of_ascii c in
  if Ascii.eqb c quote then String backslash (String quote "")
  else if Ascii.eqb c backslash then String backslash (String backslash "")
  else if (n =? 8)%N then String backslash "b"
  else if (n =? 9)%N then String backslash "t"
  else if (n =? 10)%N then String backslash "n"
  else if (n =? 12)%N then String backslash "f"
  else if (n =? 13)%N then String backslash "r"
  else if (n <? 32)%N then
    String backslash
      ("u00" +:+ String (hexDigit (n / 16)) (String (hexDigit (n mod 16)) ""))
  else String c "".

Fixpoint escape (s : string) : string :=
  match s with
  | EmptyString => EmptyString
  | String c r => escapeChar c +:+ escape r
  end.

Definition text (s : string) : string :=
  String quote (escape s +:+ String quote "").

(** An integer in decimal, as a timestamp is written. *)
Definition number (z : Z) : string := NilZero.string_of_int (Z.to_int z).

Definition event (e : PageEvent) : string :=
  "{" +:+ text "eventName" +:+ ":" +:+ text (label e) +:+ ","
  +:+ text "statsigMetadata" +:+ ":{"
  +:+ match currentPage e with
      | Some page => text "currentPage" +:+ ":" +:+ text page
      | None => ""
      end
  +:+ "}}".

Definition body (b : FailedLogEventBody PageEvent unit) : string :=
  "{" +:+ text "events" +:+ ":[" +:+ String.concat "," (event <$> events b)
  +:+ "]," +:+ text "statsigMetadata" +:+ ":{}," +:+ text "time" +:+ ":"
  +:+ number (time b) +:+ "}".

Definition stringify (bodies : list (FailedLogEventBody PageEvent unit))
    : string :=
  "[" +:+ String.concat "," (body <$> bodies) +:+ "]".

(** The reader, one character at a time. *)
Inductive Field := FLabel | FPage.

Inductive Phase :=
| Start                                  (* before the array *)
| FirstBody                              (* after the opening bracket *)
| FirstEvent                             (* after the bracket of [events] *)
| InText (f : Field)                     (* inside a string literal *)
| Escaped (f : Field)                    (* after a backslash *)
| Hex (f : Field) (digits : list N)      (* after a backslash and [u] *)
| Meta                                   (* after the brace of an event's
                                            [statsigMetadata] *)
| AfterEvent
| Time                                   (* in the digits of [time] *)
| AfterBody
| End                                    (* after the closing bracket *)
| Lit (rest : string) (next : Phase).    (* in the middle of fixed text *)

Record Reader := mkReader {
  phase : Phase;
  bodies : list (FailedLogEventBody PageEvent unit);   (* read so far *)
  batch : list PageEvent;          (* events of the batch being read *)
  name : string;                   (* label of the event being read *)
  buffer : list ascii;             (* the literal or number being read,
                                      last character first *)
}.

Definition initial : Reader :=
  {| phase := Start; bodies := []; batch := []; name := ""; buffer := [] |}.

Definition goto (p : Phase) (r : Reader) : Reader :=
  {| phase := p; bodies := bodies r; batch := batch r; name := name r;
     buffer := [] |}.

Definition push (c : ascii) (f : Field) (r : Reader) : Reader :=
  {| phase := InText f; bodies := bodies r; batch := batch r; name := name r;
     buffer := c :: buffer r |}.

Definition buffered (r : Reader) : string :=
  string_of_list_ascii (rev (buffer r)).

Definition addEvent (page : option string) (p : Phase) (r : Reader) : Reader :=
  {| phase := p; bodies := bodies r;
     batch := batch r ++ [{| label := name r; currentPage := page |}];
     name := ""; buffer := [] |}.

Definition isBlank (c : ascii) : bool :=
  let n := N_of_ascii c in
  ((n =? 32) || (n =? 9) || (n =? 10) || (n =? 13))%N.

Definition isDigit (c : ascii) : bool :=
  let n := N_of_ascii c in ((48 <=? n) && (n <=? 57))%N.

Definition hexValue (c : ascii) : option N :=
  let n := N_of_ascii c in
  if ((48 <=? n) && (n <=? 57))%N then Some (n - 48)%N
  else if ((97 <=? n) && (n <=? 102))%N then Some (n - 87)%N
  else if ((65 <=? n) && (n <=? 70))%N then Some (n - 55)%N
  else None.

Fixpoint digitsValue (acc : Z) (s : string) : option Z :=
  match s with
  | EmptyString => Some acc
  | String c r =>
      if isDigit c then digitsValue (10 * acc + Z.of_N (N_of_ascii c - 48)) r
      else None
  end.

(** A JSON integer: an optional minus sign, then [0] or digits that do not
    start with [0]. *)
Definition natural (s : string) : option Z :=
  match s with
  | EmptyString => None
  | String c r =>
      if (Ascii.eqb c "0"%char && negb (String.eqb r ""))%bool then None
      else digitsValue 0 s
  end.

Definition integer (s : string) : option Z :=
  match s with
  | String "-"%char r => Z.opp <$> natural r
  | _ => natural s
  end.

Definition eventsKey : string := text "events" +:+ ":[".
Definition eventKey : string := text "eventName" +:+ String ":" (String quote "").
Definition metaKey : string := "," +:+ text "statsigMetadata" +:+ ":{".
Definition pageKey : string :=
  "currentPage" +:+ String quote (String ":" (String quote "")).
Definition timeKey : string :=
  "," +:+ text "statsigMetadata" +:+ ":{}," +:+ text "time" +:+ ":".

Definition step (r : Reader) (c : ascii) : option Reader :=
  match phase r with
  | Start =>
      if isBlank c then Some r
      else if Ascii.eqb c "["%char then Some (goto FirstBody r)
      else None
  | FirstBody =>
      if Ascii.eqb c "]"%char then Some (goto End r)
      else if Ascii.eqb c "{"%char then Some (goto (Lit eventsKey FirstEvent) r)
      else None
  | FirstEvent =>
      if Ascii.eqb c "]"%char then Some (goto (Lit timeKey Time) r)
      else if Ascii.eqb c "{"%char
      then Some (goto (Lit eventKey (InText FLabel)) r)
      else None
  | InText f =>
      if Ascii.eqb c quote then
        match f with
        | FLabel =>
            Some {| phase := Lit metaKey Meta; bodies := bodies r;
                    batch := batch r; name := buffered r; buffer := [] |}
        | FPage => Some (addEvent (Some (buffered r)) (Lit "}}" AfterEvent) r)
        end
      else if Ascii.eqb c backslash then
        Some {| phase := Escaped f; bodies := bodies r; batch := batch r;
                name := name r; buffer := buffer r |}
      else if (N_of_ascii c <? 32)%N then None
      else Some (push c f r)
  | Escaped f =>
      if (Ascii.eqb c quote || Ascii.eqb c backslash || Ascii.eqb c "/"%char)%bool
      then Some (push c f r)
      else if Ascii.eqb c "b"%char then Some (push "008"%char f r)
      else if Ascii.eqb c "t"%char then Some (push "009"%char f r)
      else if Ascii.eqb c "n"%char then Some (push "010"%char f r)
      else if Ascii.eqb c "f"%char then Some (push "012"%char f r)
      else if Ascii.eqb c "r"%char then Some (push "013"%char f r)
      else if Ascii.eqb c "u"%char then
        Some {| phase := Hex f []; bodies := bodies r; batch := batch r;
                name := name r; buffer := buffer r |}
      else None
  | Hex f digits =>
      match hexValue c with
      | None => None
      | Some d =>
          match digits with
          | [d1; d2; d3] =>
              let code := (((d1 * 16 + d2) * 16 + d3) * 16 + d)%N in
              if (code <? 256)%N then Some (push (ascii_of_N code) f r)
              else None
          | _ =>
              Some {| phase := Hex f (digits ++ [d]); bodies := bodies r;
                      batch := batch r; name := name r; buffer := buffer r |}
          end
      end
  | Meta =>
      if Ascii.eqb c "}"%char then Some (addEvent None (Lit "}" AfterEvent) r)
      else if Ascii.eqb c quote then Some (goto (Lit pageKey (InText FPage)) r)
      else None
  | AfterEvent =>
      if Ascii.eqb c ","%char
      then Some (goto (Lit ("{" +:+ eventKey) (InText FLabel)) r)
      else if Ascii.eqb c "]"%char then Some (goto (Lit timeKey Time) r)
      else None
  | Time =>
      if Ascii.eqb c "}"%char then
        match integer (buffered r) with
        | Some t =>
            Some {| phase := AfterBody;
                    bodies := bodies r ++
                      [{| events := batch r; statsigMetadata := tt; time := t |}];
                    batch := []; name := ""; buffer := [] |}
        | None => None
        end
      else if (isDigit c || Ascii.eqb c "-"%char)%bool then
        Some {| phase := Time; bodies := bodies r; batch := batch r;
                name := name r; buffer := c :: buffer r |}
      else None
  | AfterBody =>
      if Ascii.eqb c ","%char
      then Some (goto (Lit ("{" +:+ eventsKey) FirstEvent) r)
      else if Ascii.eqb c "]"%char then Some (goto End r)
      else None
  | End => if isBlank c then Some r else None
  | Lit rest next =>
      match rest with
      | EmptyString => None
      | String c' rest' =>
          if Ascii.eqb c c' then
            Some (goto (if String.eqb rest' "" then next else Lit rest' next) r)
          else None
      end
  end.

Fixpoint feed (r : option Reader) (s : string) : option Reader :=
  match s with
  | EmptyString => r
  | String c s' => feed (r ≫= fun x => step x c) s'
  end.

Definition result (r : option Reader)
    : Parsed PageEvent unit :=
  match r with
  | Some x =>
      match phase x with
      | End => ParsedIterable (BodyOk <$> bodies x)
      | _ => ParseThrows
      end
  | None => ParseThrows
  end.

Definition parse (s : string) : Parsed PageEvent unit :=
  result (feed (Some initial) s).

End Json.

Definition jsonHost : Host := {|
  Event := PageEvent;
  StatsigUser := string;
  StatsigMetadata := unit;
  disableCurrentPageLogging := false;
  loggingBufferMaxSize := 100;
  _statsigMetadata := tt;
  STATSIG_LOCAL_STORAGE_LOGGING_REQUEST_KEY := "STATSIG_LOCAL_STORAGE_LOGGING_REQUEST";
  makeLogEvent := fun _ eventName _ _ _ _ _ =>
    {| label := eventName; currentPage := None |};
  setCurrentPage := fun page event =>
    {| label := label event; currentPage := Some page |};
  JSON_stringify := Json.stringify;
  JSON_parse := Json.parse;
|}.

(** [n] blanks. *)
Definition blanks (n : positive) : string :=
  Pos.iter (String " "%char) EmptyString n.

(** A batch of one event, as a failed delivery at time 4000 stores it. *)
Definition savedBatch : FailedLogEventBody PageEvent unit :=
  {| events := [{| label := "click";
                   currentPage := Some "https://example.com/app" |}];
     statsigMetadata := tt; time := 4000 |}.

(** The payload that holds [savedBatch], and the same payload followed by
    1 024 000 blanks, which puts it above the size threshold. *)
Definition savedPayload : string := Json.stringify [savedBatch].
Definition largePayload : string := savedPayload +:+ blanks 1024000.

End StatsigLogger.

(* ===================================================================== *)
(** * Utilities (the source file whose name is not known)                 *)
(* ===================================================================== *)

Module Utils.

Definition STATSIG_KEY_STABLE_ID : string := "statsig_stable_id".

Definition getSDKType : string := "statsig-js-client-sdk".

Section StableID.

(** [localGet] and [localSet] come from a storage module that is not part of
    the sources at hand: they are parameters, over any type of stores. *)
Context {Store : Type}.
Variable localGet : string -> Store -> option string.
Variable localSet : string -> string -> Store -> Store.

(** [getStableID], with the id [generateID()] would draw as an input.  The
    test [if (deviceID)] fails for a missing value and for the empty
    string. *)
Definition getStableID (uuid : string) (st : Store) : string * Store :=
  match localGet STATSIG_KEY_STABLE_ID st with
  | Some (String c r) => (String c r, st)
  | Some EmptyString | None =>
      (uuid, localSet STATSIG_KEY_STABLE_ID uuid st)
  end.

End StableID.

(** What [getBoolValue] can observe of its argument: whether it is [null] or
    [undefined], and the text [toString()] gives otherwise. *)
Inductive JsValue :=
| JsNullish
| JsBool (b : bool)
| JsString (s : string)
| JsOther (text : string).

Definition toString (val : JsValue) : string :=
  match val with
  | JsNullish => ""
  | JsBool b => StatsigLogger.String_of_bool b
  | JsString s => s
  | JsOther text => text
  end.

(** [toLowerCase] on the letters A to Z; no other character lowers to one
    of the letters of [true] and [false]. *)
Definition lowerChar (c : ascii) : ascii :=
  let n := N_of_ascii c in
  if ((65 <=? n) && (n <=? 90))%N then ascii_of_N (n + 32) else c.

Fixpoint toLowerCase (s : string) : string :=
  match s with
  | EmptyString => EmptyString
  | String c r => String (lowerChar c) (toLowerCase r)
  end.

Definition getBoolValue (val : JsValue) : option bool :=
  match val with
  | JsNullish => None
  | JsBool _ | JsString _ | JsOther _ =>
      if String.eqb (toLowerCase (toString val)) "true" then Some true
      else if String.eqb (toLowerCase (toString val)) "false" then Some false
      else None
  end.

(** A store for running [getStableID]: a map from keys to strings. *)
Definition mapGet (key : string) (st : gmap string string) : option string :=
  st !! key.

Definition mapSet (key value : string) (st : gmap string string)
    : gmap string string :=
  <[key := value]> st.

End Utils.

(** Proof steps shared by the frame lemmas: unfold the steps of the logger and
    split on every test they make. *)
Ltac open_logger :=
  unfold StatsigLogger.log, StatsigLogger.flush, StatsigLogger.flush_catch,
    StatsigLogger.flush_finally, StatsigLogger.replay_catch,
    StatsigLogger.logConfigDefaultValueFallback,
    StatsigLogger._newFailedRequest, StatsigLogger._addFailedRequest,
    StatsigLogger._saveFailedRequests,
    StatsigLogger._clearLocalStorageRequests, StatsigLogger.stamped.

Ltac frame :=
  cbv zeta; intros; open_logger;
  repeat (case_bool_decide || case_match); simpl; try done.

Ltac grows :=
  unfold StatsigLogger.storeGrows; frame; split_and!;
  try done; try (by apply prefix_app_r); try set_solver; try lia.

(* ===================================================================== *)
(** * Properties of LogEvent                                              *)
(* ===================================================================== *)

Section PlainObjectFacts.
Context {V : Type}.
Implicit Types (o : gmap string V) (key : string) (v : V).

Lemma assign_own key v o :
  is_Some (o !! key) -> PlainObject.assign key v o = <[key := v]> o.
Proof. intros [x E]. unfold PlainObject.assign. by rewrite E. Qed.

Lemma assign_fresh key v o :
  key <> "__proto__" -> PlainObject.assign key v o = <[key := v]> o.
Proof.
  intros Hne. unfold PlainObject.assign.
  destruct (o !! key); [done|]. by rewrite bool_decide_eq_false_2.
Qed.

Lemma assign_proto v o :
  o !! "__proto__" = None -> PlainObject.assign "__proto__" v o = o.
Proof. intros E. unfold PlainObject.assign. by rewrite E. Qed.

Lemma assign_other key k' v o :
  key <> k' -> PlainObject.assign key v o !! k' = o !! k'.
Proof.
  intros Hne. unfold PlainObject.assign.
  destruct (o !! key); [by rewrite lookup_insert_ne|].
  case_bool_decide; [done|by rewrite lookup_insert_ne].
Qed.

Lemma assign_keeps key k' v o :
  is_Some (o !! k') -> is_Some (PlainObject.assign key v o !! k').
Proof.
  intros Hs. destruct (decide (key = k')) as [->|Hne].
  - rewrite assign_own by done. rewrite lookup_insert_eq. by eexists.
  - by rewrite assign_other.
Qed.

End PlainObjectFacts.

Section LogEventFacts.
Import LogEvent.

Lemma fresh_loc_unused (h : Heap) : h !! fresh (dom h) = None.
Proof. apply not_elem_of_dom, is_fresh. Qed.

Lemma setUser_stored (newUser : option loc) (h : Heap) (ev : LogEvent) :
  (setUser newUser h ev).1 !! fresh (dom h)
  = Some (delete "privateAttributes" (spread newUser h)).
Proof.
  unfold setUser; simpl.
  rewrite lookup_alter_eq, lookup_insert_eq. reflexivity.
Qed.

Lemma setUser_frame (newUser : option loc) (h : Heap) (ev : LogEvent) (l0 : loc) :
  is_Some (h !! l0) -> (setUser newUser h ev).1 !! l0 = h !! l0.
Proof.
  intros Hl0. unfold setUser; simpl.
  assert (fresh (dom h) <> l0) as Hne.
  { intros <-. rewrite fresh_loc_unused in Hl0. by destruct Hl0. }
  rewrite lookup_alter_ne, lookup_insert_ne; done.
Qed.

Lemma call_keeps_user (c : Call) (s : Heap * LogEvent) :
  user (call c s).2 = user s.2 /\
  statsigMetadata (call c s).2 = statsigMetadata s.2.
Proof. destruct c; done. Qed.

Lemma call_frame (c : Call) (s : Heap * LogEvent) (l : loc) :
  l <> statsigMetadata s.2 -> (call c s).1 !! l = s.1 !! l.
Proof.
  intros Hne. destruct c; simpl; try done.
  unfold addStatsigMetadata. by rewrite lookup_alter_ne.
Qed.

Lemma calls_frame (cs : list Call) (s : Heap * LogEvent) (l : loc) :
  l <> statsigMetadata s.2 ->
  user (calls cs s).2 = user s.2 /\ (calls cs s).1 !! l = s.1 !! l.
Proof.
  unfold calls. revert s. induction cs as [|c cs IH]; intros s Hne; [done|].
  simpl. destruct (call_keeps_user c s) as [Hu Hm].
  destruct (IH (call c s)) as [IHu IHl]; [by rewrite Hm|].
  rewrite IHu, IHl, Hu. split; [done|]. by apply call_frame.
Qed.

(** C8. [setUser] stores a new object: it has no [privateAttributes] property
    and agrees with the given user on every other property, and
    [toJsonObject] exposes exactly that object.  Every object that existed
    before the call, the caller's user among them, is unchanged.  No later
    call of another method changes which object the event stores or what it
    holds. *)
Theorem setUser_strips_private_attributes (h : Heap) (ev : LogEvent)
    (newUser : option loc) (l0 : loc) (o0 : Obj) (cs : list Call)
    (Hexisting : h !! l0 = Some o0)
    (Hmetadata : is_Some (h !! statsigMetadata ev)) :
  let s := setUser newUser h ev in
  exists (l : loc) (o : Obj),
    user s.2 = Some l /\
    toJsonObject s.2 !! "user" = Some (VRef l) /\
    s.1 !! l = Some o /\
    o !! "privateAttributes" = None /\
    (forall k, k <> "privateAttributes" -> o !! k = spread newUser h !! k) /\
    s.1 !! l0 = Some o0 /\
    user (calls cs s).2 = Some l /\
    (calls cs s).1 !! l = Some o.
Proof.
  cbv zeta.
  exists (fresh (dom h)), (delete "privateAttributes" (spread newUser h)).
  assert (fresh (dom h) <> statsigMetadata (setUser newUser h ev).2) as Hne.
  { simpl. intros Heq. rewrite <- Heq, fresh_loc_unused in Hmetadata.
    by destruct Hmetadata. }
  destruct (calls_frame cs (setUser newUser h ev) (fresh (dom h)) Hne)
    as [Huser Hheap].
  split_and!.
  - done.
  - done.
  - apply setUser_stored.
  - apply lookup_delete_eq.
  - intros k Hk. by rewrite lookup_delete_ne.
  - rewrite setUser_frame; [done | by eexists].
  - by rewrite Huser.
  - rewrite Hheap. apply setUser_stored.
Qed.

(** On a caller's heap: the user keeps its private attributes, the copy
    stored on a freshly built event has none and keeps the user id. *)
Lemma setUser_strips_private_attributes_witness :
  let built := constructor "click" 1000 callerHeap in
  let s := setUser (Some 1%positive) built.1 built.2 in
  built.1 !! 1%positive = Some callerUser /\
  is_Some (built.1 !! statsigMetadata built.2) /\
  s.1 !! 1%positive = Some callerUser /\
  exists (l : loc) (o : Obj),
    user s.2 = Some l /\ s.1 !! l = Some o /\
    o !! "privateAttributes" = None /\ o !! "userID" = Some (VStr "u-1").
Proof.
  cbv zeta.
  assert ((constructor "click" 1000 callerHeap).1 !! 1%positive = Some callerUser)
    as Hexisting by (vm_compute; reflexivity).
  assert (is_Some ((constructor "click" 1000 callerHeap).1
                     !! statsigMetadata (constructor "click" 1000 callerHeap).2))
    as Hmetadata by (eexists; vm_compute; reflexivity).
  destruct (setUser_strips_private_attributes
              (constructor "click" 1000 callerHeap).1
              (constructor "click" 1000 callerHeap).2
              (Some 1%positive) 1%positive callerUser [] Hexisting Hmetadata)
    as (l & o & Huser & _ & Hstored & Hprivate & Hother & Hcaller & _).
  split_and!; [exact Hexisting | exact Hmetadata | exact Hcaller |].
  exists l, o. split_and!; [exact Huser | exact Hstored | exact Hprivate |].
  rewrite Hother by discriminate. vm_compute. reflexivity.
Defined.

End LogEventFacts.

(* ===================================================================== *)
(** * Properties of StatsigLogger                                         *)
(* ===================================================================== *)

Section LoggerFacts.
Import StatsigLogger.
Context `{H : Host}.

Lemma addFailedRequest_accepts (requestBody : Body) (now : Z) (w : State) :
  time requestBody >= now - MS_RETRY_LOGS_CUTOFF ->
  Z.of_nat (length (failedLogEvents w)) <= MAX_BATCHES_TO_RETRY ->
  failedLogEventCount w + Z.of_nat (length (events requestBody)) <= MAX_FAILED_EVENTS ->
  failedLogEvents (_addFailedRequest requestBody now w)
    = failedLogEvents w ++ [requestBody] /\
  failedLogEventCount (_addFailedRequest requestBody now w)
    = failedLogEventCount w + Z.of_nat (length (events requestBody)).
Proof. frame; lia. Qed.

Lemma addFailedRequest_rejects (requestBody : Body) (now : Z) (w : State) :
  time requestBody < now - MS_RETRY_LOGS_CUTOFF \/
  Z.of_nat (length (failedLogEvents w)) > MAX_BATCHES_TO_RETRY \/
  failedLogEventCount w + Z.of_nat (length (events requestBody)) > MAX_FAILED_EVENTS ->
  _addFailedRequest requestBody now w = w.
Proof. frame; lia. Qed.

Lemma addFailedRequest_frame (requestBody : Body) (now : Z) (w : State) :
  let w' := _addFailedRequest requestBody now w in
  queue w' = queue w /\ loggedErrors w' = loggedErrors w /\
  exposureDedupeKeys w' = exposureDedupeKeys w /\
  localStorage w' = localStorage w /\ network w' = network w /\
  errorBoundary w' = errorBoundary w.
Proof. frame. Qed.

Lemma saveFailedRequests_frame (w : State) :
  let w' := _saveFailedRequests w in
  queue w' = queue w /\ loggedErrors w' = loggedErrors w /\
  failedLogEvents w' = failedLogEvents w /\
  failedLogEventCount w' = failedLogEventCount w /\
  exposureDedupeKeys w' = exposureDedupeKeys w /\
  network w' = network w /\ errorBoundary w' = errorBoundary w.
Proof. frame. Qed.

(** What the bounded [add] does guarantee: the counter never passes the event
    cap, and the number of stored batches never passes the batch cap by more
    than one. *)
Lemma addFailedRequest_bounds (requestBody : Body) (now : Z) (w : State) :
  failedLogEventCount w <= MAX_FAILED_EVENTS ->
  Z.of_nat (length (failedLogEvents w)) <= MAX_BATCHES_TO_RETRY + 1 ->
  let w' := _addFailedRequest requestBody now w in
  failedLogEventCount w' <= MAX_FAILED_EVENTS /\
  Z.of_nat (length (failedLogEvents w')) <= MAX_BATCHES_TO_RETRY + 1.
Proof. frame. rewrite length_app. simpl. lia. Qed.


Lemma shouldLogExposure_cases (key : string) (now : Z) (w : State) :
  (exposureDedupeKeys w !! key = None /\
   _shouldLogExposure key now w
   = (true, with_exposureDedupeKeys
              (PlainObject.assign key now (exposureDedupeKeys w)) w)) \/
  (exists t, exposureDedupeKeys w !! key = Some t /\ now - t <= 600000 /\
   _shouldLogExposure key now w = (false, w)) \/
  (exists t, exposureDedupeKeys w !! key = Some t /\ now - t > 600000 /\
   _shouldLogExposure key now w
   = (true, with_exposureDedupeKeys (<[key := now]> (exposureDedupeKeys w)) w)).
Proof.
  unfold _shouldLogExposure, PlainObject.read.
  destruct (exposureDedupeKeys w !! key) as [t|] eqn:E.
  - right. case_bool_decide.
    + left. exists t. split_and!; try done; lia.
    + right. exists t. split_and!; try done; [lia|].
      by rewrite (assign_own key now (exposureDedupeKeys w)) by by exists t.
  - left. split; [done|]. by case_bool_decide.
Qed.

Lemma shouldLogExposure_other (key k' : string) (now : Z) (w : State) :
  key <> k' ->
  exposureDedupeKeys (_shouldLogExposure key now w).2 !! k'
  = exposureDedupeKeys w !! k'.
Proof.
  intros Hne.
  destruct (shouldLogExposure_cases key now w)
    as [[_ ->]|[(t & _ & _ & ->)|(t & _ & _ & ->)]]; simpl;
    by rewrite ?assign_other, ?lookup_insert_ne.
Qed.

(** The first check of a key that can be recorded. *)
Lemma shouldLogExposure_fresh (key : string) (now : Z) (w : State) :
  key <> "__proto__" ->
  exposureDedupeKeys w !! key = None ->
  _shouldLogExposure key now w
  = (true, with_exposureDedupeKeys (<[key := now]> (exposureDedupeKeys w)) w).
Proof.
  intros Hne E.
  destruct (shouldLogExposure_cases key now w)
    as [[_ ->]|[(t & E' & _)|(t & E' & _)]]; [|congruence..].
  by rewrite assign_fresh.
Qed.


Lemma shouldLogExposure_suppressed (key : string) (now t : Z) (w : State) :
  exposureDedupeKeys w !! key = Some t -> now - t <= 600000 ->
  _shouldLogExposure key now w = (false, w).
Proof.
  intros E Hin.
  destruct (shouldLogExposure_cases key now w)
    as [[E' _]|[(t' & _ & _ & ->)|(t' & E' & Hout & _)]];
    [congruence | done | ].
  rewrite E in E'. simplify_eq. lia.
Qed.

(** Checks in which those of [key] fall inside the window of [t0] leave the
    record of [key] alone, be it [t0] or, at [__proto__], nothing. *)
Lemma probes_keep (key : string) (t0 : Z) (probes : list (string * Z)) (w : State) :
  exposureDedupeKeys w !! key = Some t0 \/
  key = "__proto__" /\ exposureDedupeKeys w !! key = None ->
  Forall (fun p => p.1 = key -> p.2 - t0 <= 600000) probes ->
  exposureDedupeKeys (foldl probe w probes) !! key
  = exposureDedupeKeys w !! key.
Proof.
  intros Hw Hall. revert w Hw.
  induction Hall as [|p ps Hp Hps IH]; intros w Hw; [done|].
  simpl.
  assert (exposureDedupeKeys (probe w p) !! key = exposureDedupeKeys w !! key)
    as Hstep.
  { unfold probe. destruct (decide (p.1 = key)) as [Heq|Hne];
      [|by rewrite shouldLogExposure_other].
    destruct Hw as [Hw|[-> Hw]].
    - rewrite (shouldLogExposure_suppressed p.1 p.2 t0 w); [done| |auto].
      by rewrite Heq.
    - rewrite Heq.
      destruct (shouldLogExposure_cases "__proto__" p.2 w)
        as [[_ ->]|[(? & E & _)|(? & E & _)]]; [|congruence..].
      simpl. by rewrite assign_proto. }
  rewrite IH; [done|]. by rewrite Hstep.
Qed.


(** ** Frames of the steps *)

Lemma newFailedRequest_frame (name : string) (q : list Event) (now : Z) (w : State) :
  let w' := _newFailedRequest name q now w in
  queue w' = queue w /\ exposureDedupeKeys w' = exposureDedupeKeys w /\
  failedLogEventCount w' = failedLogEventCount w /\
  network w' = network w /\ errorBoundary w' = errorBoundary w.
Proof. frame. Qed.

Lemma flush_dedupe (isClosing : bool) (a : Ambient) (w : State) :
  exposureDedupeKeys (flush isClosing a w).1 = exposureDedupeKeys w.
Proof. frame. Qed.

Lemma log_dedupe (a : Ambient) (event : Event) (w : State) :
  exposureDedupeKeys (log a event w).1 = exposureDedupeKeys w.
Proof. frame. Qed.

Lemma flush_empty (isClosing : bool) (a : Ambient) (w : State) :
  queue w = [] -> flush isClosing a w = (w, []).
Proof. intros Hq. unfold flush. by rewrite Hq. Qed.

Lemma flush_nonempty (isClosing : bool) (a : Ambient) (w : State) :
  queue w <> [] ->
  queue (flush isClosing a w).1 = [] /\
  batches (flush isClosing a w).1 = batches w ++ [queue w].
Proof.
  intros Hq. unfold batches. frame.
  all: rewrite ?fmap_app; simpl; try done.
  all: try (by destruct (queue w)).
Qed.

Lemma flush_pipeline (isClosing : bool) (a : Ambient) (w : State) :
  pipeline (flush isClosing a w).1 = pipeline w.
Proof.
  destruct (decide (queue w = [])) as [Hq|Hq].
  - by rewrite flush_empty.
  - destruct (flush_nonempty isClosing a w Hq) as [Hq' Hb].
    unfold pipeline. rewrite Hq', Hb, concat_app. simpl.
    by rewrite !app_nil_r.
Qed.

Lemma log_pipeline (a : Ambient) (event : Event) (w : State) :
  pipeline (log a event w).1 = pipeline w ++ [stamped a event].
Proof.
  unfold log, stamped. case_bool_decide; [rewrite flush_pipeline|];
    unfold pipeline, batches; simpl; by rewrite app_assoc.
Qed.

Lemma fallback_pipeline (a : Ambient) (user : option StatsigUser)
    (message : string) (metadata : gmap string MetaValue) (w : State) :
  pipeline (logConfigDefaultValueFallback a user message metadata w).1
  = pipeline w ++
      [stamped a (makeLogEvent (clock a 0) DEFAULT_VALUE_WARNING user
                    _statsigMetadata (Some message) metadata None)].
Proof.
  unfold logConfigDefaultValueFallback. rewrite <- log_pipeline. done.
Qed.

Lemma flush_catch_pipeline (oldQueue : list Event) (error : Failure)
    (a : Ambient) (w : State) :
  pipeline (flush_catch oldQueue error a w) = pipeline w.
Proof. unfold pipeline, batches. frame. Qed.

Lemma flush_finally_pipeline (isClosing : bool) (a : Ambient) (w : State) :
  pipeline (flush_finally isClosing a w) `sublist_of` pipeline w.
Proof.
  unfold pipeline, batches. frame.
  all: apply sublist_app; [done | apply sublist_nil_l].
Qed.

Lemma replay_catch_pipeline (requestBody : Body) (fireAndForget : bool)
    (a : Ambient) (w : State) :
  pipeline (replay_catch requestBody fireAndForget a w) = pipeline w.
Proof. unfold pipeline, batches. frame. Qed.

Lemma settle_pipeline (t : Task) (o : Outcome) (a : Ambient) (w : State) :
  pipeline (settle t o a w) `sublist_of` pipeline w.
Proof.
  destruct t as [oldQueue isClosing|requestBody fireAndForget], o as [|error];
    simpl; rewrite ?replay_catch_pipeline; try done.
  - apply flush_finally_pipeline.
  - etrans; [apply flush_finally_pipeline|]. by rewrite flush_catch_pipeline.
Qed.

(** ** The replay loop *)

Lemma replay_loop (fireAndForget : bool)
    (requestBodies : list (RequestBody Event StatsigMetadata))
    (acc : State * list Task) :
  let r := foldl (replayOne fireAndForget) acc requestBodies in
  r.2 = acc.2 ++
        ((fun b => ReplayContinuation b fireAndForget) <$> omap replayable requestBodies) /\
  network r.1 = network acc.1 ++ (PostSavedRequest <$> omap replayable requestBodies) /\
  queue r.1 = queue acc.1 /\ loggedErrors r.1 = loggedErrors acc.1 /\
  failedLogEvents r.1 = failedLogEvents acc.1 /\
  failedLogEventCount r.1 = failedLogEventCount acc.1 /\
  exposureDedupeKeys r.1 = exposureDedupeKeys acc.1 /\
  localStorage r.1 = localStorage acc.1 /\
  errorBoundary r.1 = errorBoundary acc.1.
Proof.
  cbv zeta. revert acc.
  induction requestBodies as [|requestBody requestBodies IH]; intros acc.
  - simpl. by rewrite !app_nil_r.
  - simpl foldl.
    destruct (IH (replayOne fireAndForget acc requestBody))
      as (-> & -> & -> & -> & -> & -> & -> & -> & ->).
    destruct requestBody; simpl; rewrite <- ?app_assoc; done.
Qed.

Lemma sendSavedRequests_absent (w : State) :
  localStorage w !! STATSIG_LOCAL_STORAGE_LOGGING_REQUEST_KEY = None ->
  sendSavedRequests w = (_clearLocalStorageRequests w, []).
Proof. intros E. unfold sendSavedRequests. by rewrite E. Qed.

Lemma sendSavedRequests_present (w : State) (failedRequests : string) :
  localStorage w !! STATSIG_LOCAL_STORAGE_LOGGING_REQUEST_KEY = Some failedRequests ->
  let fireAndForget :=
    bool_decide (Z.of_nat (String.length failedRequests) > MAX_LOCAL_STORAGE_SIZE) in
  let r := sendSavedRequests w in
  r.2 = (fun b => ReplayContinuation b fireAndForget) <$> replayed failedRequests /\
  network r.1 = network w ++ (PostSavedRequest <$> replayed failedRequests) /\
  queue r.1 = queue w /\ loggedErrors r.1 = loggedErrors w /\
  failedLogEvents r.1 = failedLogEvents w /\
  failedLogEventCount r.1 = failedLogEventCount w /\
  exposureDedupeKeys r.1 = exposureDedupeKeys w /\
  localStorage r.1
    = delete STATSIG_LOCAL_STORAGE_LOGGING_REQUEST_KEY (localStorage w) /\
  errorBoundary r.1 = errorBoundary w.
Proof.
  intros E. cbv zeta. unfold sendSavedRequests, replayed. rewrite E.
  destruct (JSON_parse failedRequests) as [| |requestBodies]; simpl;
    rewrite ?app_nil_r; try done.
  destruct (replay_loop
              (bool_decide (Z.of_nat (String.length failedRequests) > MAX_LOCAL_STORAGE_SIZE))
              requestBodies (w, []))
    as (-> & -> & -> & -> & -> & -> & -> & -> & ->).
  done.
Qed.

Lemma saved_requests_carry_no_batch (l : list Body) :
  concat (batch <$> (PostSavedRequest <$> l)) = [].
Proof. induction l as [|b l IH]; [done|]. simpl. done. Qed.

Lemma sendSavedRequests_pipeline (w : State) :
  pipeline (sendSavedRequests w).1 = pipeline w.
Proof.
  destruct (localStorage w !! STATSIG_LOCAL_STORAGE_LOGGING_REQUEST_KEY)
    as [failedRequests|] eqn:E.
  - destruct (sendSavedRequests_present w failedRequests E)
      as (_ & Hn & Hq & _).
    unfold pipeline, batches. rewrite Hn, Hq, fmap_app, concat_app.
    by rewrite saved_requests_carry_no_batch, app_nil_r.
  - by rewrite sendSavedRequests_absent.
Qed.

(** ** Runs *)

Lemma run_snoc (ops : list (Ambient * Op)) (x : Ambient * Op)
    (sys : State * list Task) :
  run (ops ++ [x]) sys = step (run ops sys) x.
Proof. unfold run. by rewrite foldl_app. Qed.

Lemma enqueued_snoc (ops : list (Ambient * Op)) (x : Ambient * Op) :
  enqueued (ops ++ [x]) = enqueued ops ++ enqueuedBy x.
Proof. unfold enqueued. rewrite bind_app. simpl. by rewrite app_nil_r. Qed.

Lemma step_pipeline (sys : State * list Task) (x : Ambient * Op) :
  pipeline (step sys x).1 `sublist_of` pipeline sys.1 ++ enqueuedBy x.
Proof.
  destruct x as [a op].
  destruct op as [event|user message metadata|isClosing| |i o];
    unfold step, enqueuedBy; cbn [fst snd].
  - by rewrite log_pipeline.
  - by rewrite fallback_pipeline.
  - by rewrite flush_pipeline, app_nil_r.
  - by rewrite sendSavedRequests_pipeline, app_nil_r.
  - rewrite app_nil_r. destruct (sys.2 !! i); cbn [fst snd]; [|done].
    apply settle_pipeline.
Qed.

Lemma run_pipeline (ops : list (Ambient * Op)) (sys : State * list Task) :
  pipeline (run ops sys).1 `sublist_of` pipeline sys.1 ++ enqueued ops.
Proof.
  induction ops as [|x ops IH] using rev_ind.
  - simpl. by rewrite app_nil_r.
  - rewrite run_snoc, enqueued_snoc, app_assoc.
    etrans; [apply step_pipeline|]. by apply sublist_app.
Qed.

Lemma NoDup_concat_apart {A : Type} (ls : list (list A)) (i j : nat)
    (b1 b2 : list A) (e : A) :
  NoDup (concat ls) -> i <> j ->
  ls !! i = Some b1 -> ls !! j = Some b2 -> e ∈ b1 -> e ∉ b2.
Proof.
  revert i j. induction ls as [|l ls IH]; intros i j Hnd Hij Hi Hj He1 He2; [done|].
  simpl in Hnd. apply NoDup_app in Hnd as (_ & Hdisj & Hrest).
  destruct i as [|i], j as [|j]; simpl in *; simplify_eq.
  - apply (Hdisj e He1). apply list_elem_of_In, in_concat.
    exists b2. split; apply list_elem_of_In; [by eapply list_elem_of_lookup_2|done].
  - apply (Hdisj e He2). apply list_elem_of_In, in_concat.
    exists b1. split; apply list_elem_of_In; [by eapply list_elem_of_lookup_2|done].
  - eapply (IH i j); eauto.
Qed.

(** ** The error boundary *)

Lemma logError_oncePerKey (tag : string) (error : Failure) (b : ErrorBoundary) :
  oncePerKey b -> oncePerKey (_logError tag error b).
Proof.
  intros [Hnd Hseen]. unfold _logError. case_bool_decide as Hnew; [done|].
  split; simpl; rewrite fmap_app; simpl.
  - apply NoDup_app. split_and!; [done| |apply NoDup_singleton].
    intros k Hk Hk'. apply list_elem_of_singleton in Hk' as ->. auto.
  - intros k Hk. apply elem_of_app in Hk as [Hk|Hk].
    + apply elem_of_union_r. auto.
    + apply list_elem_of_singleton in Hk as ->.
      by apply elem_of_union_l, elem_of_singleton.
Qed.

Lemma flush_catch_boundary (oldQueue : list Event) (error : Failure)
    (a : Ambient) (w : State) :
  errorBoundary (flush_catch oldQueue error a w)
  = match text error with
    | TextPending => errorBoundary w
    | TextAbsent | TextResolved _ =>
        _logError LOG_FAILURE_EVENT error (errorBoundary w)
    end.
Proof. frame. Qed.

Lemma flush_boundary (isClosing : bool) (a : Ambient) (w : State) :
  errorBoundary (flush isClosing a w).1 = errorBoundary w.
Proof. frame. Qed.

Lemma log_boundary (a : Ambient) (event : Event) (w : State) :
  errorBoundary (log a event w).1 = errorBoundary w.
Proof. frame. Qed.

Lemma settle_oncePerKey (t : Task) (o : Outcome) (a : Ambient) (w : State) :
  oncePerKey (errorBoundary w) -> oncePerKey (errorBoundary (settle t o a w)).
Proof.
  intros Hok.
  destruct t as [oldQueue isClosing|requestBody fireAndForget], o as [|error];
    simpl.
  - by replace (errorBoundary (flush_finally isClosing (later a) w))
      with (errorBoundary w) by frame.
  - replace (errorBoundary (flush_finally isClosing (later a)
                              (flush_catch oldQueue error a w)))
      with (errorBoundary (flush_catch oldQueue error a w)) by frame.
    rewrite flush_catch_boundary.
    destruct (text error); auto using logError_oncePerKey.
  - done.
  - by replace (errorBoundary (replay_catch requestBody fireAndForget a w))
      with (errorBoundary w) by frame.
Qed.

Lemma step_oncePerKey (sys : State * list Task) (x : Ambient * Op) :
  oncePerKey (errorBoundary sys.1) -> oncePerKey (errorBoundary (step sys x).1).
Proof.
  intros Hok. destruct x as [a op].
  destruct op as [event|user message metadata|isClosing| |i o];
    unfold step; cbn [fst snd].
  - by rewrite log_boundary.
  - unfold logConfigDefaultValueFallback. cbn [fst errorBoundary with_loggedErrors].
    by rewrite log_boundary.
  - by rewrite flush_boundary.
  - destruct (localStorage sys.1 !! STATSIG_LOCAL_STORAGE_LOGGING_REQUEST_KEY)
      as [failedRequests|] eqn:E.
    + destruct (sendSavedRequests_present sys.1 failedRequests E)
        as (_ & _ & _ & _ & _ & _ & _ & _ & ->). done.
    + by rewrite sendSavedRequests_absent.
  - destruct (sys.2 !! i); cbn [fst snd]; [|done]. by apply settle_oncePerKey.
Qed.

Lemma run_oncePerKey (ops : list (Ambient * Op)) (sys : State * list Task) :
  oncePerKey (errorBoundary sys.1) -> oncePerKey (errorBoundary (run ops sys).1).
Proof.
  intros Hok. induction ops as [|x ops IH] using rev_ind; [done|].
  rewrite run_snoc. by apply step_oncePerKey.
Qed.

Lemma constructor_oncePerKey (storage : gmap string string) :
  oncePerKey (errorBoundary (constructor storage)).
Proof. split; simpl; [apply NoDup_nil_2 | set_solver]. Qed.

(** ** Replay continuations leave the storage alone *)

Lemma settle_replay_storage (requestBody : Body) (fireAndForget : bool)
    (o : Outcome) (a : Ambient) (w : State) :
  localStorage (settle (ReplayContinuation requestBody fireAndForget) o a w)
  = localStorage w.
Proof. destruct o; simpl; [done|]. frame. Qed.

Lemma settleAll_replay_storage (bodies : list Body) (fireAndForget : bool)
    (os : list (Outcome * Ambient)) (w : State) :
  localStorage
    (settleAll ((fun b => ReplayContinuation b fireAndForget) <$> bodies) os w)
  = localStorage w.
Proof.
  unfold settleAll. revert os w.
  induction bodies as [|b bodies IH]; intros os w; [done|].
  destruct os as [|[o a] os]; [done|]. simpl.
  rewrite IH. apply settle_replay_storage.
Qed.

(** ** Main results on the logger *)


(** C10. A dedup check that returns false changes nothing.  Hence, after a
    check of [key] returned true at [t0], any number of checks (of any keys)
    in which those of [key] fall inside the window of [t0] leave the record of
    [key] as that check left it, which is [t0] recorded for every key but
    [__proto__], and a check of [key] more than 600 000 ms after [t0] returns
    true. *)
Theorem suppressed_checks_keep_window (w : State) (key : string) (t0 t : Z)
    (probes : list (string * Z))
    (Htrue : (_shouldLogExposure key t0 w).1 = true)
    (Hsuppressed : Forall (fun p => p.1 = key -> p.2 - t0 <= 600000) probes)
    (Hlate : t - t0 > 600000) :
  let w1 := (_shouldLogExposure key t0 w).2 in
  let w2 := foldl probe w1 probes in
  (forall k now w', (_shouldLogExposure k now w').1 = false ->
     (_shouldLogExposure k now w').2 = w') /\
  exposureDedupeKeys w2 !! key = exposureDedupeKeys w1 !! key /\
  (key <> "__proto__" -> exposureDedupeKeys w2 !! key = Some t0) /\
  (_shouldLogExposure key t w2).1 = true.
Proof.
  cbv zeta. split.
  { intros k now w' Hf.
    destruct (shouldLogExposure_cases k now w')
      as [[_ E]|[(? & _ & _ & E)|(? & _ & _ & E)]]; rewrite E in *; done. }
  assert (exposureDedupeKeys (_shouldLogExposure key t0 w).2 !! key = Some t0 \/
          key = "__proto__" /\
          exposureDedupeKeys (_shouldLogExposure key t0 w).2 !! key = None)
    as Hrec.
  { destruct (shouldLogExposure_cases key t0 w)
      as [[E0 E]|[(? & _ & _ & E)|(? & _ & _ & E)]]; rewrite E in *; simpl;
      [ | done | left; by rewrite lookup_insert_eq ].
    destruct (decide (key = "__proto__")) as [->|Hne].
    - right. by rewrite assign_proto.
    - left. by rewrite assign_fresh, lookup_insert_eq. }
  pose proof (probes_keep key t0 probes _ Hrec Hsuppressed) as Hkeep.
  split; [done|]. split.
  { intros Hne. rewrite Hkeep. by destruct Hrec as [?|[? _]]. }
  destruct (shouldLogExposure_cases key t
              (foldl probe (_shouldLogExposure key t0 w).2 probes))
    as [[_ E]|[(t' & E' & Hw & E)|(? & _ & _ & E)]]; rewrite E; try done.
  rewrite Hkeep in E'. destruct Hrec as [Hrec|[_ Hrec]]; rewrite Hrec in E';
    simplify_eq. lia.
Qed.

(** C2 (amended).  In any state the logger can reach, when a normal-path
    delivery finally fails: if the key [statsig::log_event_failed] is not yet
    among the logged errors, the batch is appended to the Failure Store as one
    FailedBatch stamped with the failure time; if the key is already there,
    the batch is dropped and the store and the storage stay as they were.
    Either way the key is recorded afterwards, and the error boundary has
    reported every failure-reason key at most once. *)
Theorem failed_delivery_stored_once_per_key
    (storage : gmap string string) (ops : list (Ambient * Op))
    (oldQueue : list Event) (error : Failure) (a : Ambient) :
  let w := (run ops (constructor storage, [])).1 in
  let w' := flush_catch oldQueue error a w in
  (LOG_FAILURE_EVENT ∉ loggedErrors w ->
     failedLogEvents w'
     = failedLogEvents w ++
         [{| events := oldQueue; statsigMetadata := _statsigMetadata;
             time := clock a 0 |}]) /\
  (LOG_FAILURE_EVENT ∈ loggedErrors w ->
     failedLogEvents w' = failedLogEvents w /\ localStorage w' = localStorage w) /\
  LOG_FAILURE_EVENT ∈ loggedErrors w' /\
  NoDup (reported (errorBoundary w')).*2.
Proof.
  cbv zeta.
  pose proof (run_oncePerKey ops (constructor storage, [])
                (constructor_oncePerKey storage)) as Hok.
  set (w := (run ops (constructor storage, [])).1) in *.
  split_and!.
  - intros Hnew. frame.
  - intros Hold. frame.
  - frame; set_solver.
  - rewrite flush_catch_boundary.
    destruct (text error); try apply logError_oncePerKey; apply Hok.
Qed.

(** C4. Whatever the storage holds under the key (nothing, a string that does
    not parse, a value that is not a sequence, any sequence of batches), the
    key is absent when [sendSavedRequests] returns, and it is still absent
    after the replayed requests have completed, whatever their outcomes. *)
Theorem sendSavedRequests_clears_key (w : State)
    (os : list (Outcome * Ambient)) :
  let r := sendSavedRequests w in
  localStorage r.1 !! STATSIG_LOCAL_STORAGE_LOGGING_REQUEST_KEY = None /\
  localStorage (settleAll r.2 os r.1) !! STATSIG_LOCAL_STORAGE_LOGGING_REQUEST_KEY
  = None.
Proof.
  cbv zeta.
  destruct (localStorage w !! STATSIG_LOCAL_STORAGE_LOGGING_REQUEST_KEY)
    as [failedRequests|] eqn:E.
  - destruct (sendSavedRequests_present w failedRequests E)
      as (Ht & _ & _ & _ & _ & _ & _ & Hs & _).
    rewrite Ht, settleAll_replay_storage, Hs. by rewrite lookup_delete_eq.
  - rewrite sendSavedRequests_absent by done. simpl.
    unfold settleAll. simpl. by rewrite lookup_delete_eq.
Qed.

(** C5. In any state the logger can reach, [flush] changes nothing when the
    queue is empty; otherwise it leaves the queue empty and hands the whole
    former queue, in order, to the transport as one new batch.  The batches
    handed over so far, followed by the queue, are a subsequence of the events
    enqueued, so when the enqueued events are pairwise distinct no event is in
    two batches. *)
Theorem flush_hands_over_whole_queue
    (storage : gmap string string) (ops : list (Ambient * Op))
    (isClosing : bool) (a : Ambient) :
  let w := (run ops (constructor storage, [])).1 in
  let r := flush isClosing a w in
  (queue w = [] -> r = (w, [])) /\
  (queue w <> [] ->
     queue r.1 = [] /\ batches r.1 = batches w ++ [queue w]) /\
  concat (batches r.1) ++ queue r.1 `sublist_of` enqueued ops /\
  (NoDup (enqueued ops) ->
     forall (i j : nat) (b1 b2 : list Event) (e : Event),
       i <> j -> batches r.1 !! i = Some b1 -> batches r.1 !! j = Some b2 ->
       e ∈ b1 -> e ∉ b2).
Proof.
  cbv zeta.
  set (w := (run ops (constructor storage, [])).1).
  assert (pipeline (flush isClosing a w).1 `sublist_of` enqueued ops) as Hsub.
  { rewrite flush_pipeline. apply (run_pipeline ops (constructor storage, [])). }
  split_and!.
  - apply flush_empty.
  - apply flush_nonempty.
  - exact Hsub.
  - intros Hnd i j b1 b2 e Hij Hi Hj.
    apply (NoDup_concat_apart (batches (flush isClosing a w).1) i j); try done.
    eapply sublist_NoDup in Hnd; [|exact Hsub].
    by apply NoDup_app in Hnd as (Hnd & _ & _).
Qed.


(** C7. With a payload under the key, [sendSavedRequests] re-submits each
    replayable batch once and leaves the Failure Store as it is; the request
    and the continuation at the same position belong to the same batch.
    When that request fails: if the payload is longer than the threshold, the
    continuation leaves the logger as it was (the batch is dropped); if it is
    not, the continuation appends that very batch to the Failure Store and
    counts its events when the bounds of the store let it in (it is not older
    than the cutoff, the store holds at most 100 batches and the events fit
    under 1000), and leaves the logger as it was when they do not. *)
Theorem replay_failure_policy (w : State) (failedRequests : string)
    (Hload : localStorage w !! STATSIG_LOCAL_STORAGE_LOGGING_REQUEST_KEY
             = Some failedRequests) :
  let r := sendSavedRequests w in
  network r.1 = network w ++ (PostSavedRequest <$> replayed failedRequests) /\
  length r.2 = length (replayed failedRequests) /\
  failedLogEvents r.1 = failedLogEvents w /\
  failedLogEventCount r.1 = failedLogEventCount w /\
  forall (i : nat) (b : Body),
    replayed failedRequests !! i = Some b ->
    network r.1 !! (length (network w) + i)%nat = Some (PostSavedRequest b) /\
    exists t : Task,
      r.2 !! i = Some t /\
      forall (error : Failure) (a : Ambient) (w' : State),
        let w'' := settle t (Failed error) a w' in
        (Z.of_nat (String.length failedRequests) > MAX_LOCAL_STORAGE_SIZE ->
           w'' = w') /\
        (Z.of_nat (String.length failedRequests) <= MAX_LOCAL_STORAGE_SIZE ->
           (time b >= clock a 0 - MS_RETRY_LOGS_CUTOFF ->
            Z.of_nat (length (failedLogEvents w')) <= MAX_BATCHES_TO_RETRY ->
            failedLogEventCount w' + Z.of_nat (length (events b))
              <= MAX_FAILED_EVENTS ->
            failedLogEvents w'' = failedLogEvents w' ++ [b] /\
            failedLogEventCount w''
            = failedLogEventCount w' + Z.of_nat (length (events b)) /\
            localStorage w'' = localStorage w') /\
           (time b < clock a 0 - MS_RETRY_LOGS_CUTOFF \/
            Z.of_nat (length (failedLogEvents w')) > MAX_BATCHES_TO_RETRY \/
            failedLogEventCount w' + Z.of_nat (length (events b))
              > MAX_FAILED_EVENTS ->
            w'' = w')).
Proof.
  cbv zeta.
  destruct (sendSavedRequests_present w failedRequests Hload)
    as (Ht & Hn & _ & _ & Hstore & Hcount & _).
  rewrite Ht, Hn. split_and!; [done|by rewrite length_fmap|done|done|].
  intros i b Hb. split.
  { rewrite lookup_app_r by lia.
    replace (length (network w) + i - length (network w))%nat with i by lia.
    by rewrite list_lookup_fmap, Hb. }
  eexists. split; [by rewrite list_lookup_fmap, Hb|].
  intros error a w'. cbn [settle]. unfold replay_catch. split; intros Hsize.
  - by rewrite bool_decide_eq_true_2.
  - rewrite bool_decide_eq_false_2 by lia. split.
    + intros Hage Hbatches Hevents.
      destruct (addFailedRequest_accepts b (clock a 0) w' Hage Hbatches Hevents)
        as [-> ->].
      by destruct (addFailedRequest_frame b (clock a 0) w')
        as (_ & _ & _ & -> & _).
    + apply addFailedRequest_rejects.
Qed.

(** C9. The config exposures [("ab", "c", reason)] and [("a", "bc", reason)]
    differ and have the same dedupe key, and so do the gate exposures
    [("x", true, "true", reason)] and [("xtrue", true, "", reason)].  When the
    key is new, the first call enqueues its event, and the second call, made
    within 600 000 ms, changes nothing and enqueues nothing. *)
Theorem distinct_exposures_share_dedupe_key (w : State) (a1 a2 : Ambient)
    (user1 user2 : option StatsigUser)
    (secondary1 secondary2 : list (gmap string string))
    (details : EvaluationDetails.t) (manual1 manual2 : bool)
    (Hconfig : exposureDedupeKeys w
                 !! configDedupeKey "ab" "c" (EvaluationDetails.reason details) = None)
    (Hgate : exposureDedupeKeys w
               !! gateDedupeKey "x" true "true" (EvaluationDetails.reason details) = None)
    (Hwindow : clock a2 0 - clock a1 0 <= 600000) :
  let reason := EvaluationDetails.reason details in
  (("ab", "c", reason) <> ("a", "bc", reason) /\
   configDedupeKey "ab" "c" reason = configDedupeKey "a" "bc" reason /\
   let r1 := logConfigExposure a1 user1 "ab" "c" secondary1 details manual1 w in
   let r2 := logConfigExposure a2 user2 "a" "bc" secondary2 details manual2 r1.1 in
   length (pipeline r1.1) = S (length (pipeline w)) /\ r2 = (r1.1, [])) /\
  (("x", true, "true", reason) <> ("xtrue", true, "", reason) /\
   gateDedupeKey "x" true "true" reason = gateDedupeKey "xtrue" true "" reason /\
   let r1 := logGateExposure a1 user1 "x" true "true" secondary1 details manual1 w in
   let r2 := logGateExposure a2 user2 "xtrue" true "" secondary2 details manual2 r1.1 in
   length (pipeline r1.1) = S (length (pipeline w)) /\ r2 = (r1.1, [])).
Proof.
  cbv zeta. split.
  - split_and!; [congruence|done| |].
    + unfold logConfigExposure.
      rewrite shouldLogExposure_fresh by done.
      cbn [fst snd negb]. rewrite log_pipeline, length_app. simpl.
      unfold pipeline, batches. simpl. lia.
    + unfold logConfigExposure at 1.
      change (configDedupeKey "a" "bc" (EvaluationDetails.reason details))
        with (configDedupeKey "ab" "c" (EvaluationDetails.reason details)).
      rewrite (shouldLogExposure_suppressed _ _ (clock a1 0)); [done| |done].
      unfold logConfigExposure.
      rewrite shouldLogExposure_fresh by done.
      cbn [fst snd negb]. rewrite log_dedupe. simpl.
      by rewrite lookup_insert_eq.
  - split_and!; [congruence|done| |].
    + unfold logGateExposure.
      rewrite shouldLogExposure_fresh by done.
      cbn [fst snd negb]. rewrite log_pipeline, length_app. simpl.
      unfold pipeline, batches. simpl. lia.
    + unfold logGateExposure at 1.
      change (gateDedupeKey "xtrue" true "" (EvaluationDetails.reason details))
        with (gateDedupeKey "x" true "true" (EvaluationDetails.reason details)).
      rewrite (shouldLogExposure_suppressed _ _ (clock a1 0)); [done| |done].
      unfold logGateExposure.
      rewrite shouldLogExposure_fresh by done.
      cbn [fst snd negb]. rewrite log_dedupe. simpl.
      by rewrite lookup_insert_eq.
Qed.

End LoggerFacts.

(* ===================================================================== *)
(** * The model at work: concrete runs                                    *)
(* ===================================================================== *)

Section Scenarios.
Import StatsigLogger.

(** ** Concrete facts used below *)

Lemma payloadOfSize_length (n : positive) :
  String.length (payloadOfSize n) = Pos.to_nat n.
Proof.
  unfold payloadOfSize. rewrite Pos2Nat.inj_iter.
  induction (Pos.to_nat n) as [|k IH]; simpl; [done|]. by rewrite IH.
Qed.

Lemma blanks_length (n : positive) :
  String.length (blanks n) = Pos.to_nat n.
Proof.
  unfold blanks. rewrite Pos2Nat.inj_iter.
  induction (Pos.to_nat n) as [|k IH]; simpl; [done|]. by rewrite IH.
Qed.

Lemma string_length_app (s t : string) :
  String.length (s +:+ t) = (String.length s + String.length t)%nat.
Proof. induction s as [|c s IH]; simpl; [done|]. by rewrite IH. Qed.

Lemma feed_app (r : option Json.Reader) (s t : string) :
  Json.feed r (s +:+ t) = Json.feed (Json.feed r s) t.
Proof. revert r. induction s as [|c s IH]; intros r; simpl; [done|]. apply IH. Qed.

(** Blanks after the closing bracket are skipped. *)
Lemma feed_blanks (x : Json.Reader) (n : positive) :
  Json.phase x = Json.End -> Json.feed (Some x) (blanks n) = Some x.
Proof.
  intros Hend. unfold blanks. rewrite Pos2Nat.inj_iter.
  induction (Pos.to_nat n) as [|k IH]; [done|].
  cbn [Nat.iter nat_rect Json.feed mbind option_bind].
  replace (Json.step x " ") with (Some x); [exact IH|].
  unfold Json.step. by rewrite Hend.
Qed.

Lemma savedPayload_replayed :
  @replayed jsonHost savedPayload !! 0%nat = Some savedBatch.
Proof. vm_compute. reflexivity. Qed.

Lemma largePayload_replayed :
  @replayed jsonHost largePayload !! 0%nat = Some savedBatch.
Proof.
  unfold replayed.
  change (@JSON_parse jsonHost largePayload)
    with (Json.result (Json.feed (Some Json.initial)
                         (savedPayload +:+ blanks 1024000))).
  rewrite feed_app.
  assert (Json.feed (Some Json.initial) savedPayload
          = Some {| Json.phase := Json.End; Json.bodies := [savedBatch];
                    Json.batch := []; Json.name := ""; Json.buffer := [] |})
    as -> by (vm_compute; reflexivity).
  by rewrite feed_blanks.
Qed.

Lemma largePayload_length :
  Z.of_nat (String.length largePayload) > MAX_LOCAL_STORAGE_SIZE.
Proof.
  unfold largePayload.
  rewrite string_length_app, blanks_length, Nat2Z.inj_add, positive_nat_Z.
  assert (0 < Z.of_nat (String.length savedPayload))
    by (vm_compute; reflexivity).
  assert (MAX_LOCAL_STORAGE_SIZE = 1024000) as -> by reflexivity. lia.
Qed.

(** C1 (the code departs from the claim).  Two runs of the concrete host.
    After 101 terminating flushes of one event each, all through the bounded
    add, the Failure Store holds 101 batches, one more than the cap of 100.
    After 20 terminating flushes of 50 events the store holds 1000 events, and
    one failed delivery then adds a batch without any check: 1001 events are
    stored, one more than the cap of 1000, while the counter still says
    1000. *)
Theorem failure_store_exceeds_caps :
  let many := Nat.iter 101 (sweep 1) start in
  let full := Nat.iter 20 (sweep 50) start in
  let over := (run (failedDelivery 0 "view") (full, [])).1 in
  (MAX_BATCHES_TO_RETRY = 100 /\ length (failedLogEvents many) = 101%nat) /\
  (MAX_FAILED_EVENTS = 1000 /\
   length (failedLogEvents full ≫= events) = 1000%nat /\
   length (failedLogEvents over ≫= events) = 1001%nat /\
   failedLogEventCount over = 1000).
Proof. vm_compute. done. Qed.

(** C2, as stated, fails: of two deliveries that both fail after their
    retries, only the first batch reaches the Failure Store; the event of the
    second is in no FailedBatch. *)
Lemma second_failed_delivery_is_dropped :
  let w := (run (failedDelivery 1000 "click" ++ failedDelivery 5000 "view")
              (start, [])).1 in
  batches w = [["click"]; ["view"]] /\
  failedLogEvents w
    = [{| events := ["click"]; statsigMetadata := tt; time := 4000 |}] /\
  ~ (exists b, b ∈ failedLogEvents w /\ "view" ∈ events b).
Proof.
  cbv zeta.
  assert (failedLogEvents
            (run (failedDelivery 1000 "click" ++ failedDelivery 5000 "view")
               (start, [])).1
          = [{| events := ["click"]; statsigMetadata := tt; time := 4000 |}]) as E
    by (vm_compute; reflexivity).
  split_and!; [vm_compute; reflexivity | exact E |].
  rewrite E. intros (b & Hb & Hview).
  apply list_elem_of_singleton in Hb as ->. simpl in Hview.
  apply list_elem_of_singleton in Hview. discriminate.
Qed.

(** The first failed delivery of a process: its batch is appended. *)
Lemma failed_delivery_stored_once_per_key_witness :
  let ops := [(browsing 1000, @OpLog nameHost "click");
              (browsing 1000, @OpFlush nameHost false)] in
  let w := (run ops (start, [])).1 in
  (LOG_FAILURE_EVENT ∉ loggedErrors w) /\
  failedLogEvents (@flush_catch nameHost ["click"] networkDown (browsing 4000) w)
  = failedLogEvents w ++
      [{| events := ["click"]; statsigMetadata := tt; time := 4000 |}].
Proof.
  cbv zeta.
  assert (LOG_FAILURE_EVENT
            ∉ loggedErrors
                (run [(browsing 1000, @OpLog nameHost "click");
                      (browsing 1000, @OpFlush nameHost false)] (start, [])).1) as Hnew.
  { apply (bool_decide_unpack _). vm_compute. exact I. }
  split; [exact Hnew|].
  apply (failed_delivery_stored_once_per_key (H := nameHost) ∅
           [(browsing 1000, @OpLog nameHost "click");
            (browsing 1000, @OpFlush nameHost false)]
           ["click"] networkDown (browsing 4000)).
  exact Hnew.
Defined.



(** Suppressed checks up to the edge of the window do not move it. *)
Lemma suppressed_checks_keep_window_witness :
  let probes := [("gate|true", 2000); ("config|a", 3000); ("gate|true", 601000)] in
  let w1 := (_shouldLogExposure "gate|true" 1000 start).2 in
  let w2 := foldl probe w1 probes in
  (_shouldLogExposure "gate|true" 1000 start).1 = true /\
  exposureDedupeKeys w2 !! "gate|true" = Some 1000 /\
  (_shouldLogExposure "gate|true" 601001 w2).1 = true.
Proof.
  cbv zeta.
  assert ((_shouldLogExposure "gate|true" 1000 start).1 = true) as Htrue
    by reflexivity.
  split; [exact Htrue|].
  destruct (suppressed_checks_keep_window start "gate|true" 1000 601001
              [("gate|true", 2000); ("config|a", 3000); ("gate|true", 601000)]
              Htrue) as (_ & _ & Hrec & Hlate).
  - repeat constructor; simpl; intros; lia.
  - lia.
  - split; [apply Hrec; discriminate | exact Hlate].
Defined.

(** Two events logged, then a flush: one batch with both, queue empty. *)
Lemma flush_hands_over_whole_queue_witness :
  let ops := [(browsing 1000, @OpLog nameHost "click");
              (browsing 1500, @OpLog nameHost "view")] in
  let w := (run ops (start, [])).1 in
  let r := flush false (browsing 2000) w in
  queue w <> [] /\ queue r.1 = [] /\ batches r.1 = batches w ++ [queue w].
Proof.
  cbv zeta.
  destruct (flush_hands_over_whole_queue (H := nameHost) ∅
              [(browsing 1000, @OpLog nameHost "click");
               (browsing 1500, @OpLog nameHost "view")] false (browsing 2000))
    as (_ & Hnonempty & _ & _).
  assert (queue (run [(browsing 1000, @OpLog nameHost "click");
                      (browsing 1500, @OpLog nameHost "view")] (start, [])).1
          <> []) as Hq by (vm_compute; discriminate).
  split; [exact Hq|]. exact (Hnonempty Hq).
Defined.



(** A logger that starts on the payload a failed delivery left behind, and one
    that starts on the same payload padded beyond the threshold.  Each replays
    the one batch; when the request fails, the first has the batch in its
    Failure Store again and the second is as it was, its store empty. *)
Lemma replay_failure_policy_witness :
  let small := (sendSavedRequests
                  (@constructor jsonHost
                     {[ "STATSIG_LOCAL_STORAGE_LOGGING_REQUEST" := savedPayload ]})) in
  let large := (sendSavedRequests
                  (@constructor jsonHost
                     {[ "STATSIG_LOCAL_STORAGE_LOGGING_REQUEST" := largePayload ]})) in
  (Z.of_nat (String.length savedPayload) <= MAX_LOCAL_STORAGE_SIZE /\
   network small.1 !! 0%nat = Some (@PostSavedRequest jsonHost savedBatch) /\
   failedLogEvents small.1 = [] /\
   exists t : Task,
     small.2 !! 0%nat = Some t /\
     failedLogEvents (settle t (Failed networkDown) (browsing 5000) small.1)
     = [savedBatch]) /\
  (Z.of_nat (String.length largePayload) > MAX_LOCAL_STORAGE_SIZE /\
   network large.1 !! 0%nat = Some (@PostSavedRequest jsonHost savedBatch) /\
   failedLogEvents large.1 = [] /\
   exists t : Task,
     large.2 !! 0%nat = Some t /\
     settle t (Failed networkDown) (browsing 5000) large.1 = large.1).
Proof.
  cbv zeta.
  assert (Z.of_nat (String.length savedPayload) <= MAX_LOCAL_STORAGE_SIZE)
    as Hsmall by (vm_compute; discriminate).
  pose proof largePayload_length as Hlarge.
  split.
  - destruct (replay_failure_policy (H := jsonHost)
                (@constructor jsonHost
                   {[ "STATSIG_LOCAL_STORAGE_LOGGING_REQUEST" := savedPayload ]})
                savedPayload (lookup_singleton_eq _ _))
      as (_ & _ & Hstore & _ & Hpolicy).
    destruct (Hpolicy 0%nat savedBatch savedPayload_replayed)
      as (Hposted & t & Ht & Hfails).
    split_and!; [exact Hsmall | exact Hposted | exact Hstore |].
    exists t. split; [exact Ht|].
    destruct (Hfails networkDown (browsing 5000)
                (sendSavedRequests
                   (@constructor jsonHost
                      {[ "STATSIG_LOCAL_STORAGE_LOGGING_REQUEST" := savedPayload ]})).1)
      as [_ Hadd].
    destruct (Hadd Hsmall) as [Haccepted _].
    rewrite Hstore in Haccepted.
    destruct Haccepted as (Hadded & _); [vm_compute; discriminate..|].
    exact Hadded.
  - destruct (replay_failure_policy (H := jsonHost)
                (@constructor jsonHost
                   {[ "STATSIG_LOCAL_STORAGE_LOGGING_REQUEST" := largePayload ]})
                largePayload (lookup_singleton_eq _ _))
      as (_ & _ & Hstore & _ & Hpolicy).
    destruct (Hpolicy 0%nat savedBatch largePayload_replayed)
      as (Hposted & t & Ht & Hfails).
    split_and!; [exact Hlarge | exact Hposted | exact Hstore |].
    exists t. split; [exact Ht|].
    destruct (Hfails networkDown (browsing 5000)
                (sendSavedRequests
                   (@constructor jsonHost
                      {[ "STATSIG_LOCAL_STORAGE_LOGGING_REQUEST" := largePayload ]})).1)
      as [Hdrop _].
    exact (Hdrop Hlarge).
Defined.

(** From a fresh logger, the second of the two config exposures, one second
    after the first, leaves no trace. *)
Lemma distinct_exposures_share_dedupe_key_witness :
  let details := EvaluationDetails.mk "Network" 900 in
  let r1 := @logConfigExposure nameHost (browsing 1000) (Some "user-1")
              "ab" "c" [] details false start in
  let r2 := @logConfigExposure nameHost (browsing 2000) (Some "user-1")
              "a" "bc" [] details false r1.1 in
  configDedupeKey "ab" "c" "Network" = configDedupeKey "a" "bc" "Network" /\
  r2 = (r1.1, []).
Proof.
  cbv zeta.
  destruct (distinct_exposures_share_dedupe_key (H := nameHost) start
              (browsing 1000) (browsing 2000) (Some "user-1") (Some "user-1")
              [] [] (EvaluationDetails.mk "Network" 900) false false
              eq_refl eq_refl ltac:(simpl; lia))
    as [(_ & Hkey & _ & Hsecond) _].
  split; [exact Hkey | exact Hsecond].
Defined.

End Scenarios.

(* ===================================================================== *)
(** * Further properties of StatsigLogger                                 *)
(* ===================================================================== *)

Section MoreLoggerFacts.
Import StatsigLogger.
Context `{H : Host}.

(** ** The page part of a location *)

Lemma beforeQuery_splits (h : string) :
  hasQueryOrFragment (beforeQuery h) = false /\
  exists rest, h = beforeQuery h +:+ rest /\
    (rest = "" \/
     exists c r, rest = String c r /\ (c = "?"%char \/ c = "#"%char)).
Proof.
  induction h as [|c r (IH1 & rest & IH2 & IH3)]; simpl.
  - split; [done|]. exists "". by split; [|left].
  - destruct (Ascii.eqb c "?") eqn:Eq; simpl.
    { apply Ascii.eqb_eq in Eq as ->. split; [done|].
      exists (String "?" r). split; [done|]. right. eauto. }
    destruct (Ascii.eqb c "#") eqn:Eh; simpl.
    { apply Ascii.eqb_eq in Eh as ->. split; [done|].
      exists (String "#" r). split; [done|]. right. eauto. }
    rewrite Eq, Eh. simpl. split; [done|].
    exists rest. split; [|done].
    change (String c r = String c (beforeQuery r +:+ rest)).
    by rewrite <- IH2.
Qed.

(** X1. [log] appends to the pipeline the event as [stamped] has it.  With
    page logging off, or without a readable location, that is the event as
    given.  Otherwise it is the event with its current page set to the part
    of the location before the first [?] or [#]: the location is that page
    followed by nothing or by a rest that begins with [?] or [#], and the
    page contains neither character. *)
Theorem log_stamps_page_before_query (w : State) (a : Ambient) (event : Event) :
  pipeline (log a event w).1 = pipeline w ++ [stamped a event] /\
  (disableCurrentPageLogging = true \/ href a = None ->
     stamped a event = event) /\
  (forall h : string,
     disableCurrentPageLogging = false -> href a = Some h ->
     exists page rest : string,
       stamped a event = setCurrentPage page event /\
       h = page +:+ rest /\
       hasQueryOrFragment page = false /\
       (rest = "" \/
        exists c r, rest = String c r /\ (c = "?"%char \/ c = "#"%char))).
Proof.
  split_and!.
  - apply log_pipeline.
  - unfold stamped. intros [-> | ->]; [done|].
    by destruct disableCurrentPageLogging.
  - intros h Hon Hhref. unfold stamped. rewrite Hon, Hhref. simpl.
    destruct (beforeQuery_splits h) as (Hclean & rest & Hsplit & Hrest).
    by exists (beforeQuery h), rest.
Qed.

(** ** Frames for the queue *)

Lemma flush_queue (isClosing : bool) (a : Ambient) (w : State) :
  queue (flush isClosing a w).1 = [].
Proof.
  destruct (decide (queue w = [])) as [Hq|Hq].
  - by rewrite flush_empty.
  - by destruct (flush_nonempty isClosing a w Hq).
Qed.

Lemma log_belowBufferMax (a : Ambient) (event : Event) (w : State) :
  belowBufferMax (log a event w).1.
Proof.
  unfold log, belowBufferMax. case_bool_decide as Hfull.
  - right. apply flush_queue.
  - left. simpl in *. lia.
Qed.

Lemma flush_catch_queue (oldQueue : list Event) (error : Failure)
    (a : Ambient) (w : State) :
  queue (flush_catch oldQueue error a w) = queue w.
Proof. frame. Qed.

Lemma flush_finally_queue (isClosing : bool) (a : Ambient) (w : State) :
  queue (flush_finally isClosing a w) = if isClosing then [] else queue w.
Proof. frame. all: by destruct (queue w). Qed.

Lemma replay_catch_queue (requestBody : Body) (fireAndForget : bool)
    (a : Ambient) (w : State) :
  queue (replay_catch requestBody fireAndForget a w) = queue w.
Proof. frame. Qed.

Lemma settle_queue (t : Task) (o : Outcome) (a : Ambient) (w : State) :
  queue (settle t o a w) = queue w \/ queue (settle t o a w) = [].
Proof.
  destruct t as [oldQueue isClosing|requestBody fireAndForget], o as [|error];
    simpl; rewrite ?flush_finally_queue, ?replay_catch_queue,
             ?flush_catch_queue;
    try destruct isClosing; auto.
Qed.

Lemma sendSavedRequests_queue (w : State) :
  queue (sendSavedRequests w).1 = queue w.
Proof.
  destruct (localStorage w !! STATSIG_LOCAL_STORAGE_LOGGING_REQUEST_KEY)
    as [failedRequests|] eqn:E.
  - by destruct (sendSavedRequests_present w failedRequests E) as (_ & _ & -> & _).
  - by rewrite sendSavedRequests_absent.
Qed.

Lemma step_belowBufferMax (sys : State * list Task) (x : Ambient * Op) :
  belowBufferMax sys.1 -> belowBufferMax (step sys x).1.
Proof.
  intros Hinv. destruct x as [a op].
  destruct op as [event|user message metadata|isClosing| |i o];
    unfold step; cbn [fst snd].
  - apply log_belowBufferMax.
  - unfold logConfigDefaultValueFallback, belowBufferMax.
    cbn [fst queue with_loggedErrors]. apply log_belowBufferMax.
  - right. apply flush_queue.
  - unfold belowBufferMax. by rewrite sendSavedRequests_queue.
  - destruct (sys.2 !! i) as [t|]; cbn [fst snd]; [|done].
    unfold belowBufferMax.
    destruct (settle_queue t o a sys.1) as [-> | ->]; auto.
Qed.

(** X2. In every state the logger can reach, the queue holds fewer events
    than [loggingBufferMaxSize], or none at all: an event that fills the
    buffer is flushed by the very call that logged it. *)
Theorem queue_stays_below_buffer_max (storage : gmap string string)
    (ops : list (Ambient * Op)) :
  let w := (run ops (constructor storage, [])).1 in
  Z.of_nat (length (queue w)) < loggingBufferMaxSize \/ queue w = [].
Proof.
  cbv zeta. change (belowBufferMax (run ops (constructor storage, [])).1).
  induction ops as [|x ops IH] using rev_ind.
  - by right.
  - rewrite run_snoc. by apply step_belowBufferMax.
Qed.

(** ** Conservation of events *)

Lemma flush_tasks (isClosing : bool) (a : Ambient) (w : State) :
  Forall (fun t => keepsQueue t = negb isClosing) (flush isClosing a w).2.
Proof.
  unfold flush. repeat (case_bool_decide || case_match); simpl;
    repeat constructor.
Qed.

Lemma log_tasks (a : Ambient) (event : Event) (w : State) :
  Forall (fun t => keepsQueue t = true) (log a event w).2.
Proof.
  unfold log. case_bool_decide; [|constructor].
  apply (flush_tasks false).
Qed.

Lemma sendSavedRequests_tasks (w : State) :
  Forall (fun t => keepsQueue t = true) (sendSavedRequests w).2.
Proof.
  destruct (localStorage w !! STATSIG_LOCAL_STORAGE_LOGGING_REQUEST_KEY)
    as [failedRequests|] eqn:E.
  - destruct (sendSavedRequests_present w failedRequests E) as (-> & _).
    apply Forall_fmap, Forall_true. done.
  - rewrite sendSavedRequests_absent by done. constructor.
Qed.

Lemma settle_keeps_pipeline (t : Task) (o : Outcome) (a : Ambient) (w : State) :
  keepsQueue t = true -> pipeline (settle t o a w) = pipeline w.
Proof.
  destruct t as [oldQueue [|]|requestBody fireAndForget], o as [|error];
    simpl; intros Hk; try done;
    by rewrite ?replay_catch_pipeline, ?flush_catch_pipeline.
Qed.

Lemma step_conserves (sys : State * list Task) (x : Ambient * Op) :
  Forall (fun t => keepsQueue t = true) sys.2 ->
  isTerminating x = false ->
  pipeline (step sys x).1 = pipeline sys.1 ++ enqueuedBy x /\
  Forall (fun t => keepsQueue t = true) (step sys x).2.
Proof.
  intros Hpending Hgentle. destruct x as [a op].
  destruct op as [event|user message metadata|isClosing| |i o];
    unfold step, enqueuedBy, isTerminating in *; cbn [fst snd] in *.
  - rewrite log_pipeline. split; [done|].
    apply Forall_app; split; [done | apply log_tasks].
  - rewrite fallback_pipeline. split; [done|].
    apply Forall_app; split; [done|].
    unfold logConfigDefaultValueFallback. cbn [snd]. apply log_tasks.
  - subst isClosing. rewrite flush_pipeline, app_nil_r. split; [done|].
    apply Forall_app; split; [done | apply (flush_tasks false)].
  - rewrite sendSavedRequests_pipeline, app_nil_r. split; [done|].
    apply Forall_app; split; [done | apply sendSavedRequests_tasks].
  - rewrite app_nil_r. destruct (sys.2 !! i) as [t|] eqn:Et; cbn [fst snd].
    + split; [|by apply Forall_delete].
      apply settle_keeps_pipeline.
      by eapply (Forall_lookup_1 _ _ _ _ Hpending).
    + done.
Qed.

Lemma run_conserves (ops : list (Ambient * Op)) (sys : State * list Task) :
  Forall (fun t => keepsQueue t = true) sys.2 ->
  Forall (fun x => isTerminating x = false) ops ->
  pipeline (run ops sys).1 = pipeline sys.1 ++ enqueued ops /\
  Forall (fun t => keepsQueue t = true) (run ops sys).2.
Proof.
  intros Hpending.
  induction ops as [|x ops IH] using rev_ind; intros Hgentle.
  - simpl. by rewrite app_nil_r.
  - apply Forall_app in Hgentle as [Hops Hx].
    apply Forall_inv in Hx.
    destruct (IH Hops) as [IHp IHt].
    rewrite run_snoc, enqueued_snoc.
    destruct (step_conserves (run ops sys) x IHt Hx) as [-> Ht].
    by rewrite IHp, app_assoc.
Qed.

(** X3. As long as no terminating flush is called, no event is lost,
    duplicated or reordered on its way to the transport: the batches handed
    over so far, followed by the queue, are exactly the events enqueued, in
    the order of the calls; after one more flush the batches alone are. *)
Theorem events_conserved_without_terminating_flush
    (storage : gmap string string) (ops : list (Ambient * Op)) (a : Ambient)
    (Hgentle : Forall (fun x => isTerminating x = false) ops) :
  let w := (run ops (constructor storage, [])).1 in
  concat (batches w) ++ queue w = enqueued ops /\
  concat (batches (flush false a w).1) = enqueued ops.
Proof.
  cbv zeta.
  destruct (run_conserves ops (constructor storage, [])) as [Hp _];
    [constructor | done |].
  change (pipeline (run ops (constructor storage, [])).1 = enqueued ops) in Hp.
  split; [exact Hp|].
  rewrite <- Hp, <- (flush_pipeline false a). unfold pipeline.
  by rewrite flush_queue, app_nil_r.
Qed.

(** ** The Failure Store only grows *)

Lemma storeGrows_refl (w : State) : storeGrows w w.
Proof. unfold storeGrows. split_and!; [done|done|lia]. Qed.

Lemma storeGrows_trans (w1 w2 w3 : State) :
  storeGrows w1 w2 -> storeGrows w2 w3 -> storeGrows w1 w3.
Proof.
  intros (Hp1 & Hs1 & Hc1) (Hp2 & Hs2 & Hc2). unfold storeGrows.
  split_and!; [by etrans | by etrans | lia].
Qed.

Lemma addFailedRequest_grows (requestBody : Body) (now : Z) (w : State) :
  storeGrows w (_addFailedRequest requestBody now w).
Proof. grows. Qed.

Lemma flush_grows (isClosing : bool) (a : Ambient) (w : State) :
  storeGrows w (flush isClosing a w).1.
Proof. grows. Qed.

Lemma log_grows (a : Ambient) (event : Event) (w : State) :
  storeGrows w (log a event w).1.
Proof.
  unfold log. case_bool_decide; [|by unfold storeGrows; simpl; split_and!; try lia].
  eapply storeGrows_trans; [|apply flush_grows].
  unfold storeGrows; simpl; split_and!; try done; lia.
Qed.

Lemma fallback_grows (a : Ambient) (user : option StatsigUser)
    (message : string) (metadata : gmap string MetaValue) (w : State) :
  storeGrows w (logConfigDefaultValueFallback a user message metadata w).1.
Proof.
  unfold logConfigDefaultValueFallback. cbn [fst].
  eapply storeGrows_trans; [apply log_grows|].
  unfold storeGrows; simpl; split_and!; [done | set_solver | lia].
Qed.

Lemma flush_catch_grows (oldQueue : list Event) (error : Failure)
    (a : Ambient) (w : State) :
  storeGrows w (flush_catch oldQueue error a w).
Proof. grows. Qed.

Lemma flush_finally_grows (isClosing : bool) (a : Ambient) (w : State) :
  storeGrows w (flush_finally isClosing a w).
Proof. grows. Qed.

Lemma replay_catch_grows (requestBody : Body) (fireAndForget : bool)
    (a : Ambient) (w : State) :
  storeGrows w (replay_catch requestBody fireAndForget a w).
Proof. grows. Qed.

Lemma settle_grows (t : Task) (o : Outcome) (a : Ambient) (w : State) :
  storeGrows w (settle t o a w).
Proof.
  destruct t as [oldQueue isClosing|requestBody fireAndForget], o as [|error];
    simpl.
  - apply flush_finally_grows.
  - eapply storeGrows_trans; [apply flush_catch_grows | apply flush_finally_grows].
  - apply storeGrows_refl.
  - apply replay_catch_grows.
Qed.

Lemma sendSavedRequests_grows (w : State) :
  storeGrows w (sendSavedRequests w).1.
Proof.
  destruct (localStorage w !! STATSIG_LOCAL_STORAGE_LOGGING_REQUEST_KEY)
    as [failedRequests|] eqn:E.
  - destruct (sendSavedRequests_present w failedRequests E)
      as (_ & _ & _ & Hl & Hf & Hc & _).
    unfold storeGrows. rewrite Hl, Hf, Hc. split_and!; [done|done|lia].
  - rewrite sendSavedRequests_absent by done. grows.
Qed.

Lemma step_grows (sys : State * list Task) (x : Ambient * Op) :
  storeGrows sys.1 (step sys x).1.
Proof.
  destruct x as [a op].
  destruct op as [event|user message metadata|isClosing| |i o];
    unfold step; cbn [fst snd].
  - apply log_grows.
  - apply fallback_grows.
  - apply flush_grows.
  - apply sendSavedRequests_grows.
  - destruct (sys.2 !! i); cbn [fst snd];
      [apply settle_grows | apply storeGrows_refl].
Qed.

Lemma run_grows (ops : list (Ambient * Op)) (sys : State * list Task) :
  storeGrows sys.1 (run ops sys).1.
Proof.
  induction ops as [|x ops IH] using rev_ind.
  - apply storeGrows_refl.
  - rewrite run_snoc. eapply storeGrows_trans; [exact IH | apply step_grows].
Qed.

(** X4. Within a process nothing is ever taken out of the in-memory Failure
    Store: along any run, from any state, the batches stored before are a
    prefix of the batches stored after, the set of logged errors only grows
    and the event counter never decreases. *)
Theorem failure_store_is_append_only (ops : list (Ambient * Op))
    (sys : State * list Task) :
  let w' := (run ops sys).1 in
  failedLogEvents sys.1 `prefix_of` failedLogEvents w' /\
  loggedErrors sys.1 ⊆ loggedErrors w' /\
  failedLogEventCount sys.1 <= failedLogEventCount w'.
Proof. cbv zeta. apply (run_grows ops sys). Qed.

(** ** Bounds of the Failure Store *)

Lemma storeInvariant_same (w w' : State) :
  failedLogEvents w' = failedLogEvents w ->
  failedLogEventCount w' = failedLogEventCount w ->
  loggedErrors w ⊆ loggedErrors w' ->
  storeInvariant w -> storeInvariant w'.
Proof.
  unfold storeInvariant, storedEvents. intros -> -> Hsub (Hc & Ht & Hl).
  split_and!; try lia.
  destruct Hl as [Hl|[Hin Hl]]; [by left|].
  right. split; [by apply Hsub | done].
Qed.

Lemma saveFailedRequests_storeInvariant (w : State) :
  storeInvariant w -> storeInvariant (_saveFailedRequests w).
Proof.
  destruct (saveFailedRequests_frame w) as (_ & Hl & Hf & Hc & _).
  apply storeInvariant_same; [done | done | by rewrite Hl].
Qed.

Lemma addFailedRequest_storeInvariant (requestBody : Body) (now : Z) (w : State) :
  storeInvariant w -> storeInvariant (_addFailedRequest requestBody now w).
Proof.
  intros (Hc & Ht & Hl). unfold _addFailedRequest.
  repeat case_bool_decide; try done.
  unfold storeInvariant, storedEvents in *. simpl.
  rewrite bind_app, !length_app. simpl. rewrite app_nil_r.
  unfold MAX_FAILED_EVENTS, MAX_BATCHES_TO_RETRY in *.
  split_and!; [lia | lia | lia | left; lia].
Qed.

Lemma newFailedRequest_storeInvariant (q : list Event) (now : Z) (w : State) :
  storeInvariant w -> storeInvariant (_newFailedRequest LOG_FAILURE_EVENT q now w).
Proof.
  intros (Hc & Ht & Hl). unfold _newFailedRequest.
  case_bool_decide as Hseen; [done|].
  apply saveFailedRequests_storeInvariant.
  unfold storeInvariant, storedEvents in *. simpl.
  rewrite bind_app, !length_app. simpl.
  unfold MAX_FAILED_EVENTS, MAX_BATCHES_TO_RETRY in *.
  split_and!; [lia | lia | lia |].
  right. split; [by apply elem_of_union_l, elem_of_singleton|].
  destruct Hl as [Hl|[Hin _]]; [lia | done].
Qed.

Lemma with_queue_storeInvariant (q : list Event) (w : State) :
  storeInvariant w -> storeInvariant (with_queue q w).
Proof. by apply storeInvariant_same. Qed.

Lemma with_network_storeInvariant (l : list Request) (w : State) :
  storeInvariant w -> storeInvariant (with_network l w).
Proof. by apply storeInvariant_same. Qed.

Lemma flush_storeInvariant (isClosing : bool) (a : Ambient) (w : State) :
  storeInvariant w -> storeInvariant (flush isClosing a w).1.
Proof.
  intros Hinv. unfold flush.
  repeat (case_bool_decide || case_match); cbn [fst];
    repeat first
      [ done
      | apply saveFailedRequests_storeInvariant
      | apply with_queue_storeInvariant
      | apply with_network_storeInvariant
      | apply addFailedRequest_storeInvariant ].
Qed.

Lemma log_storeInvariant (a : Ambient) (event : Event) (w : State) :
  storeInvariant w -> storeInvariant (log a event w).1.
Proof.
  intros Hinv. unfold log. case_bool_decide; cbn [fst].
  - by apply flush_storeInvariant, with_queue_storeInvariant.
  - by apply with_queue_storeInvariant.
Qed.

Lemma flush_finally_storeInvariant (isClosing : bool) (a : Ambient) (w : State) :
  storeInvariant w -> storeInvariant (flush_finally isClosing a w).
Proof.
  intros Hinv. unfold flush_finally.
  repeat (case_bool_decide || case_match);
    repeat first
      [ done
      | apply saveFailedRequests_storeInvariant
      | apply with_queue_storeInvariant
      | apply addFailedRequest_storeInvariant ].
Qed.

Lemma flush_catch_storeInvariant (oldQueue : list Event) (error : Failure)
    (a : Ambient) (w : State) :
  storeInvariant w -> storeInvariant (flush_catch oldQueue error a w).
Proof.
  intros Hinv. unfold flush_catch. apply newFailedRequest_storeInvariant.
  destruct (text error); try done; by apply storeInvariant_same.
Qed.

Lemma settle_storeInvariant (t : Task) (o : Outcome) (a : Ambient) (w : State) :
  storeInvariant w -> storeInvariant (settle t o a w).
Proof.
  intros Hinv.
  destruct t as [oldQueue isClosing|requestBody fireAndForget], o as [|error];
    simpl.
  - by apply flush_finally_storeInvariant.
  - by apply flush_finally_storeInvariant, flush_catch_storeInvariant.
  - done.
  - unfold replay_catch. destruct fireAndForget; [done|].
    by apply addFailedRequest_storeInvariant.
Qed.

Lemma step_storeInvariant (sys : State * list Task) (x : Ambient * Op) :
  storeInvariant sys.1 -> storeInvariant (step sys x).1.
Proof.
  intros Hinv. destruct x as [a op].
  destruct op as [event|user message metadata|isClosing| |i o];
    unfold step; cbn [fst snd].
  - by apply log_storeInvariant.
  - unfold logConfigDefaultValueFallback. cbn [fst].
    apply (storeInvariant_same
             (log a
                (makeLogEvent (clock a 0) DEFAULT_VALUE_WARNING user
                   _statsigMetadata (Some message) metadata None) sys.1).1);
      [done | done | simpl; apply union_subseteq_r | by apply log_storeInvariant].
  - by apply flush_storeInvariant.
  - destruct (sendSavedRequests_grows sys.1) as (_ & Hs & _).
    destruct (localStorage sys.1 !! STATSIG_LOCAL_STORAGE_LOGGING_REQUEST_KEY)
      as [failedRequests|] eqn:E.
    + destruct (sendSavedRequests_present sys.1 failedRequests E)
        as (_ & _ & _ & _ & Hf & Hc & _).
      by apply (storeInvariant_same sys.1).
    + rewrite sendSavedRequests_absent by done.
      by apply (storeInvariant_same sys.1).
  - destruct (sys.2 !! i); cbn [fst snd]; [|done].
    by apply settle_storeInvariant.
Qed.

(** X5. In every state the logger can reach, the event counter of the Failure
    Store is between 0 and 1000 and never exceeds the number of events
    actually stored, and the store holds at most 102 batches, at most 101
    as long as [statsig::log_event_failed] has not been recorded as a logged
    error. *)
Theorem failure_store_bounds (storage : gmap string string)
    (ops : list (Ambient * Op)) :
  let w := (run ops (constructor storage, [])).1 in
  0 <= failedLogEventCount w <= 1000 /\
  failedLogEventCount w <= Z.of_nat (length (storedEvents w)) /\
  Z.of_nat (length (failedLogEvents w)) <= 102 /\
  (LOG_FAILURE_EVENT ∉ loggedErrors w ->
   Z.of_nat (length (failedLogEvents w)) <= 101).
Proof.
  cbv zeta.
  assert (storeInvariant (run ops (constructor storage, [])).1) as (Hc & Ht & Hl).
  { induction ops as [|x ops IH] using rev_ind.
    - unfold storeInvariant, storedEvents, MAX_FAILED_EVENTS, MAX_BATCHES_TO_RETRY.
      simpl. split_and!; [lia | lia | lia | left; lia].
    - rewrite run_snoc. by apply step_storeInvariant. }
  unfold MAX_FAILED_EVENTS, MAX_BATCHES_TO_RETRY in *.
  split_and!; [lia | lia | done | |].
  - destruct Hl as [Hl|[_ Hl]]; lia.
  - intros Hnew. destruct Hl as [Hl|[Hin _]]; [lia | done].
Qed.

(** ** What the logger does to the storage *)

Lemma storageStep_refl (m : gmap string string) : storageStep m m.
Proof. by left. Qed.

Lemma storageStep_fits (m m' : gmap string string) :
  storageStep m m' -> payloadFits m -> payloadFits m'.
Proof.
  unfold payloadFits.
  intros [->|[->|(requestsCopy & Hsize & ->)]] Hfits failedRequests; [auto| |].
  - by rewrite lookup_delete_eq.
  - rewrite lookup_insert_eq. by intros [= <-].
Qed.

Lemma storageStep_other (m m' : gmap string string) (key : string) :
  storageStep m m' -> key <> STATSIG_LOCAL_STORAGE_LOGGING_REQUEST_KEY ->
  m' !! key = m !! key.
Proof.
  intros [->|[->|(requestsCopy & _ & ->)]] Hne; [done| |].
  - by rewrite lookup_delete_ne.
  - by rewrite lookup_insert_ne.
Qed.

Lemma saveFailedRequests_storage (w : State) :
  storageStep (localStorage w) (localStorage (_saveFailedRequests w)).
Proof.
  unfold _saveFailedRequests, _clearLocalStorageRequests.
  repeat case_bool_decide; simpl.
  - right. by left.
  - right. right. eexists. split; [|done]. lia.
  - by left.
Qed.

Lemma addFailedRequest_storage (requestBody : Body) (now : Z) (w : State) :
  localStorage (_addFailedRequest requestBody now w) = localStorage w.
Proof. frame. Qed.

Lemma flush_storage (isClosing : bool) (a : Ambient) (w : State) :
  storageStep (localStorage w) (localStorage (flush isClosing a w).1).
Proof.
  unfold flush.
  repeat (case_bool_decide || case_match); cbn [fst];
    try apply storageStep_refl.
  - match goal with
    | |- storageStep _ (localStorage (_saveFailedRequests ?w')) =>
        replace (localStorage w) with (localStorage w')
          by (simpl; by rewrite addFailedRequest_storage)
    end.
    apply saveFailedRequests_storage.
  - match goal with
    | |- storageStep _ (localStorage (_saveFailedRequests ?w')) =>
        replace (localStorage w) with (localStorage w') by done
    end.
    apply saveFailedRequests_storage.
Qed.

Lemma log_storage (a : Ambient) (event : Event) (w : State) :
  storageStep (localStorage w) (localStorage (log a event w).1).
Proof.
  unfold log. case_bool_decide; cbn [fst]; [|apply storageStep_refl].
  apply (flush_storage false a (with_queue (queue w ++ [stamped a event]) w)).
Qed.

Lemma flush_catch_storage (oldQueue : list Event) (error : Failure)
    (a : Ambient) (w : State) :
  storageStep (localStorage w) (localStorage (flush_catch oldQueue error a w)).
Proof.
  unfold flush_catch, _newFailedRequest.
  case_bool_decide; [destruct (text error); apply storageStep_refl|].
  match goal with
  | |- storageStep _ (localStorage (_saveFailedRequests ?w')) =>
      replace (localStorage w) with (localStorage w')
        by (by destruct (text error))
  end.
  apply saveFailedRequests_storage.
Qed.

Lemma flush_finally_storage (isClosing : bool) (a : Ambient) (w : State) :
  storageStep (localStorage w) (localStorage (flush_finally isClosing a w)).
Proof.
  unfold flush_finally. destruct isClosing; [|apply storageStep_refl].
  match goal with
  | |- storageStep _ (localStorage (_saveFailedRequests ?w')) =>
      replace (localStorage w) with (localStorage w')
        by (case_bool_decide; simpl; by rewrite ?addFailedRequest_storage)
  end.
  apply saveFailedRequests_storage.
Qed.

Lemma storageStep_fits_trans (m1 m2 m3 : gmap string string) :
  storageStep m1 m2 -> storageStep m2 m3 ->
  (payloadFits m1 -> payloadFits m3) /\
  (forall key, key <> STATSIG_LOCAL_STORAGE_LOGGING_REQUEST_KEY ->
     m3 !! key = m1 !! key).
Proof.
  intros H12 H23. split.
  - intros Hfits. by eapply storageStep_fits, storageStep_fits.
  - intros key Hne.
    by rewrite (storageStep_other m2 m3), (storageStep_other m1 m2).
Qed.

Lemma step_storage (sys : State * list Task) (x : Ambient * Op) :
  (payloadFits (localStorage sys.1) -> payloadFits (localStorage (step sys x).1)) /\
  (forall key, key <> STATSIG_LOCAL_STORAGE_LOGGING_REQUEST_KEY ->
     localStorage (step sys x).1 !! key = localStorage sys.1 !! key).
Proof.
  assert (forall m m', storageStep m m' ->
            (payloadFits m -> payloadFits m') /\
            (forall key, key <> STATSIG_LOCAL_STORAGE_LOGGING_REQUEST_KEY ->
               m' !! key = m !! key)) as Hone.
  { intros m m' Hs. split; [by apply storageStep_fits|].
    intros key Hne. by apply storageStep_other. }
  destruct x as [a op].
  destruct op as [event|user message metadata|isClosing| |i o];
    unfold step; cbn [fst snd].
  - apply Hone, log_storage.
  - unfold logConfigDefaultValueFallback.
    cbn [fst localStorage with_loggedErrors]. apply Hone, log_storage.
  - apply Hone, flush_storage.
  - apply Hone. right. left.
    destruct (localStorage sys.1 !! STATSIG_LOCAL_STORAGE_LOGGING_REQUEST_KEY)
      as [failedRequests|] eqn:E.
    + by destruct (sendSavedRequests_present sys.1 failedRequests E)
        as (_ & _ & _ & _ & _ & _ & _ & -> & _).
    + by rewrite sendSavedRequests_absent.
  - destruct (sys.2 !! i) as [t|]; cbn [fst snd]; [|by apply Hone; left].
    destruct t as [oldQueue isClosing|requestBody fireAndForget], o as [|error];
      simpl.
    + apply Hone, flush_finally_storage.
    + eapply storageStep_fits_trans;
        [apply flush_catch_storage | apply flush_finally_storage].
    + apply Hone. by left.
    + apply Hone. left. unfold replay_catch.
      destruct fireAndForget; [done|]. apply addFailedRequest_storage.
Qed.

Lemma run_storage (ops : list (Ambient * Op)) (sys : State * list Task) :
  (payloadFits (localStorage sys.1) -> payloadFits (localStorage (run ops sys).1)) /\
  (forall key, key <> STATSIG_LOCAL_STORAGE_LOGGING_REQUEST_KEY ->
     localStorage (run ops sys).1 !! key = localStorage sys.1 !! key).
Proof.
  induction ops as [|x ops [IHf IHk]] using rev_ind; [done|].
  rewrite run_snoc. destruct (step_storage (run ops sys) x) as [Hf Hk].
  split; [auto|]. intros key Hne. by rewrite Hk, IHk.
Qed.

(** X6. The logger never writes a payload longer than the size limit under
    its key.  So when the storage the process starts with holds no longer
    payload there, no reachable state does, and a replay started in any
    reachable state never runs in fire-and-forget mode. *)
Theorem persisted_payload_stays_within_limit (storage : gmap string string)
    (ops : list (Ambient * Op))
    (Hfits : forall failedRequests,
       storage !! STATSIG_LOCAL_STORAGE_LOGGING_REQUEST_KEY = Some failedRequests ->
       Z.of_nat (String.length failedRequests) <= MAX_LOCAL_STORAGE_SIZE) :
  let w := (run ops (constructor storage, [])).1 in
  (forall failedRequests,
     localStorage w !! STATSIG_LOCAL_STORAGE_LOGGING_REQUEST_KEY = Some failedRequests ->
     Z.of_nat (String.length failedRequests) <= MAX_LOCAL_STORAGE_SIZE) /\
  Forall (fun t => fireAndForgetOf t = false) (sendSavedRequests w).2.
Proof.
  cbv zeta.
  destruct (run_storage ops (constructor storage, [])) as [Hrun _].
  specialize (Hrun Hfits). split; [exact Hrun|].
  destruct (localStorage (run ops (constructor storage, [])).1
              !! STATSIG_LOCAL_STORAGE_LOGGING_REQUEST_KEY)
    as [failedRequests|] eqn:E.
  - destruct (sendSavedRequests_present _ failedRequests E) as (-> & _).
    apply Forall_fmap, Forall_true. intros b. simpl.
    apply bool_decide_eq_false_2. specialize (Hrun failedRequests E). lia.
  - rewrite sendSavedRequests_absent by done. constructor.
Qed.

(** X7. The logger reads, writes and removes one key only: every other key of
    the storage holds, in every reachable state, what it held when the
    process started. *)
Theorem other_storage_keys_untouched (storage : gmap string string)
    (ops : list (Ambient * Op)) (key : string)
    (Hother : key <> STATSIG_LOCAL_STORAGE_LOGGING_REQUEST_KEY) :
  localStorage (run ops (constructor storage, [])).1 !! key = storage !! key.
Proof.
  destruct (run_storage ops (constructor storage, [])) as [_ Hkeys].
  by apply Hkeys.
Qed.

(** ** Persist, restart, replay *)

Lemma with_localStorage_same (w : State) :
  with_localStorage (localStorage w) w = w.
Proof. by destruct w. Qed.

Lemma saveFailedRequests_writes (w : State) :
  failedLogEvents w <> [] ->
  Z.of_nat (String.length (JSON_stringify (failedLogEvents w)))
    <= MAX_LOCAL_STORAGE_SIZE ->
  localStorage (_saveFailedRequests w) !! STATSIG_LOCAL_STORAGE_LOGGING_REQUEST_KEY
  = Some (JSON_stringify (failedLogEvents w)).
Proof.
  intros Hstored Hsize. unfold _saveFailedRequests.
  case_bool_decide as Hlen; [|by destruct (failedLogEvents w)].
  case_bool_decide; [lia|]. simpl. by rewrite lookup_insert_eq.
Qed.

(** X8. A Failure Store that is not empty, serializes within the size limit
    and reads back as it was written survives a restart: after the persist
    step, a new process started on the same storage re-submits exactly the
    stored batches, in order, once each and not in fire-and-forget mode; its
    own store starts empty and the key is removed. *)
Theorem persisted_batches_replayed_after_restart (w : State)
    (Hstored : failedLogEvents w <> [])
    (Hsize : Z.of_nat (String.length (JSON_stringify (failedLogEvents w)))
             <= MAX_LOCAL_STORAGE_SIZE)
    (Hcodec : replayed (JSON_stringify (failedLogEvents w)) = failedLogEvents w) :
  let restarted := constructor (localStorage (_saveFailedRequests w)) in
  let r := sendSavedRequests restarted in
  network r.1 = PostSavedRequest <$> failedLogEvents w /\
  r.2 = (fun b => ReplayContinuation b false) <$> failedLogEvents w /\
  failedLogEvents r.1 = [] /\
  localStorage r.1 !! STATSIG_LOCAL_STORAGE_LOGGING_REQUEST_KEY = None.
Proof.
  cbv zeta.
  destruct (sendSavedRequests_present
              (constructor (localStorage (_saveFailedRequests w)))
              (JSON_stringify (failedLogEvents w)))
    as (Ht & Hn & _ & _ & Hf & _ & _ & Hs & _).
  { simpl. by apply saveFailedRequests_writes. }
  rewrite Ht, Hn, Hf, Hs, Hcodec. simpl.
  split_and!; [done| |done|apply lookup_delete_eq].
  by rewrite bool_decide_eq_false_2 by lia.
Qed.

(** X9. Replay happens once: whatever the storage holds, a second call of
    [sendSavedRequests] right after the first finds nothing, posts nothing
    and changes nothing. *)
Theorem second_replay_does_nothing (w : State) :
  let r := sendSavedRequests w in
  sendSavedRequests r.1 = (r.1, []).
Proof.
  cbv zeta.
  assert (localStorage (sendSavedRequests w).1
            !! STATSIG_LOCAL_STORAGE_LOGGING_REQUEST_KEY = None) as Hgone.
  { destruct (localStorage w !! STATSIG_LOCAL_STORAGE_LOGGING_REQUEST_KEY)
      as [failedRequests|] eqn:E.
    - destruct (sendSavedRequests_present w failedRequests E)
        as (_ & _ & _ & _ & _ & _ & _ & -> & _). apply lookup_delete_eq.
    - rewrite sendSavedRequests_absent by done. simpl. apply lookup_delete_eq. }
  rewrite (sendSavedRequests_absent _ Hgone). f_equal.
  unfold _clearLocalStorageRequests. rewrite delete_id by done.
  apply with_localStorage_same.
Qed.

(** ** The queue at teardown *)

Lemma flush_finally_network (isClosing : bool) (a : Ambient) (w : State) :
  network (flush_finally isClosing a w) = network w.
Proof. frame. Qed.

Lemma flush_catch_network (oldQueue : list Event) (error : Failure)
    (a : Ambient) (w : State) :
  network (flush_catch oldQueue error a w) = network w.
Proof. frame. Qed.


(** ** Exposures *)

Lemma chars_app (s t : string) :
  list_ascii_of_string (s +:+ t)
  = list_ascii_of_string s ++ list_ascii_of_string t.
Proof. induction s as [|c s IH]; simpl; [done|]. by rewrite IH. Qed.


Lemma layerDedupeKey_not_proto (c r e p : string) (b : bool) (reason : string) :
  layerDedupeKey c r e p b reason <> "__proto__".
Proof.
  intros Heq. apply (f_equal list_ascii_of_string) in Heq.
  unfold layerDedupeKey in Heq. cbn [String.concat] in Heq.
  rewrite !chars_app in Heq.
  assert (In "|"%char (list_ascii_of_string "__proto__")) as Hin.
  { rewrite <- Heq, !in_app_iff. cbn. tauto. }
  cbn in Hin. intuition discriminate.
Qed.


Lemma separator_splits_once (s1 s2 t1 t2 : string) :
  hasSeparator s1 = false -> hasSeparator s2 = false ->
  s1 +:+ String "|" t1 = s2 +:+ String "|" t2 -> s1 = s2 /\ t1 = t2.
Proof.
  revert s2. induction s1 as [|c1 s1 IH]; intros [|c2 s2]; simpl;
    intros H1 H2 Heq.
  - by simplify_eq.
  - injection Heq as <- _. by rewrite Ascii.eqb_refl in H2.
  - injection Heq as -> _. by rewrite Ascii.eqb_refl in H1.
  - injection Heq as -> Heq.
    apply orb_false_elim in H1 as [_ H1]. apply orb_false_elim in H2 as [_ H2].
    destruct (IH s2 H1 H2 Heq) as [-> ->]. done.
Qed.

Lemma layerDedupeKey_apart
    (c1 r1 e1 p1 : string) (b1 : bool) (reason1 : string)
    (c2 r2 e2 p2 : string) (b2 : bool) (reason2 : string) :
  hasSeparator c1 = false -> hasSeparator r1 = false ->
  hasSeparator e1 = false -> hasSeparator p1 = false ->
  hasSeparator c2 = false -> hasSeparator r2 = false ->
  hasSeparator e2 = false -> hasSeparator p2 = false ->
  layerDedupeKey c1 r1 e1 p1 b1 reason1 = layerDedupeKey c2 r2 e2 p2 b2 reason2 ->
  (c1, r1, e1, p1, b1, reason1) = (c2, r2, e2, p2, b2, reason2).
Proof.
  intros Hc1 Hr1 He1 Hp1 Hc2 Hr2 He2 Hp2 Heq.
  unfold layerDedupeKey in Heq. cbn [String.concat] in Heq.
  change (?s +:+ "|" +:+ ?t) with (s +:+ String "|" t) in Heq.
  apply separator_splits_once in Heq as [-> Heq]; [|done..].
  apply separator_splits_once in Heq as [-> Heq]; [|done..].
  apply separator_splits_once in Heq as [-> Heq]; [|done..].
  apply separator_splits_once in Heq as [-> Heq]; [|done..].
  apply separator_splits_once in Heq as [Hb ->];
    [|by destruct b1|by destruct b2].
  by destruct b1, b2.
Qed.

(** X12. The key of a layer exposure determines the exposure when the
    separator does not occur in the names: if [|] is in none of the config
    name, rule id, allocated experiment and parameter name of two layer
    exposures, equal keys mean equal components, the flag and the reason
    included. *)
Theorem layerDedupeKey_injective
    (c1 r1 e1 p1 : string) (b1 : bool) (reason1 : string)
    (c2 r2 e2 p2 : string) (b2 : bool) (reason2 : string)
    (Hc1 : hasSeparator c1 = false) (Hr1 : hasSeparator r1 = false)
    (He1 : hasSeparator e1 = false) (Hp1 : hasSeparator p1 = false)
    (Hc2 : hasSeparator c2 = false) (Hr2 : hasSeparator r2 = false)
    (He2 : hasSeparator e2 = false) (Hp2 : hasSeparator p2 = false)
    (Hkey : layerDedupeKey c1 r1 e1 p1 b1 reason1
            = layerDedupeKey c2 r2 e2 p2 b2 reason2) :
  c1 = c2 /\ r1 = r2 /\ e1 = e2 /\ p1 = p2 /\ b1 = b2 /\ reason1 = reason2.
Proof.
  pose proof (layerDedupeKey_apart c1 r1 e1 p1 b1 reason1 c2 r2 e2 p2 b2 reason2
                Hc1 Hr1 He1 Hp1 Hc2 Hr2 He2 Hp2 Hkey) as Heq.
  by simplify_eq.
Qed.

Lemma logLayerExposure_fresh (a : Ambient) (user : option StatsigUser)
    (c r : string) (secondaryExposures : list (gmap string string))
    (e p : string) (b : bool) (details : EvaluationDetails.t)
    (isManualExposure : bool) (w : State) :
  exposureDedupeKeys w
    !! layerDedupeKey c r e p b (EvaluationDetails.reason details) = None ->
  let r' := logLayerExposure a user c r secondaryExposures e p b details
              isManualExposure w in
  length (pipeline r'.1) = S (length (pipeline w)) /\
  exposureDedupeKeys r'.1
  = <[layerDedupeKey c r e p b (EvaluationDetails.reason details) := clock a 0]>
      (exposureDedupeKeys w).
Proof.
  intros Hfresh. cbv zeta. unfold logLayerExposure.
  rewrite shouldLogExposure_fresh by (done || apply layerDedupeKey_not_proto).
  cbn [fst snd negb].
  rewrite log_pipeline, log_dedupe, length_app. simpl.
  split; [|done]. unfold pipeline, batches. simpl. lia.
Qed.

(** X13. Layer exposures whose names do not contain the separator suppress
    only their own repeats.  When the keys of two such exposures are new, the
    first call enqueues one event; the second call, made within 600 000 ms,
    changes nothing if it is the same exposure and enqueues a second event
    if it differs in any component. *)
Theorem layer_exposures_suppress_only_repeats (w : State) (a1 a2 : Ambient)
    (user : option StatsigUser)
    (secondaryExposures : list (gmap string string))
    (c1 r1 e1 p1 : string) (b1 : bool) (c2 r2 e2 p2 : string) (b2 : bool)
    (details : EvaluationDetails.t) (isManualExposure : bool)
    (Hc1 : hasSeparator c1 = false) (Hr1 : hasSeparator r1 = false)
    (He1 : hasSeparator e1 = false) (Hp1 : hasSeparator p1 = false)
    (Hc2 : hasSeparator c2 = false) (Hr2 : hasSeparator r2 = false)
    (He2 : hasSeparator e2 = false) (Hp2 : hasSeparator p2 = false)
    (Hnew1 : exposureDedupeKeys w
               !! layerDedupeKey c1 r1 e1 p1 b1 (EvaluationDetails.reason details)
             = None)
    (Hnew2 : exposureDedupeKeys w
               !! layerDedupeKey c2 r2 e2 p2 b2 (EvaluationDetails.reason details)
             = None)
    (Hwindow : clock a2 0 - clock a1 0 <= 600000) :
  let first := logLayerExposure a1 user c1 r1 secondaryExposures e1 p1 b1
                 details isManualExposure w in
  let second := logLayerExposure a2 user c2 r2 secondaryExposures e2 p2 b2
                  details isManualExposure first.1 in
  length (pipeline first.1) = S (length (pipeline w)) /\
  ((c1, r1, e1, p1, b1) = (c2, r2, e2, p2, b2) -> second = (first.1, [])) /\
  ((c1, r1, e1, p1, b1) <> (c2, r2, e2, p2, b2) ->
     length (pipeline second.1) = S (S (length (pipeline w)))).
Proof.
  cbv zeta.
  destruct (logLayerExposure_fresh a1 user c1 r1 secondaryExposures e1 p1 b1
              details isManualExposure w Hnew1) as [Hlen Hkeys].
  split_and!; [exact Hlen| |].
  - intros [= <- <- <- <- <-]. unfold logLayerExposure at 1.
    rewrite (shouldLogExposure_suppressed _ _ (clock a1 0)); [done| |done].
    rewrite Hkeys. apply lookup_insert_eq.
  - intros Hdiff.
    destruct (logLayerExposure_fresh a2 user c2 r2 secondaryExposures e2 p2 b2
                details isManualExposure
                (logLayerExposure a1 user c1 r1 secondaryExposures e1 p1 b1
                   details isManualExposure w).1) as [Hlen2 _].
    + rewrite Hkeys, lookup_insert_ne; [done|].
      intros Hkey. apply Hdiff.
      pose proof (layerDedupeKey_apart _ _ _ _ _ _ _ _ _ _ _ _
                    Hc1 Hr1 He1 Hp1 Hc2 Hr2 He2 Hp2 Hkey) as Heq.
      by simplify_eq.
    + by rewrite Hlen2, Hlen.
Qed.

(** ** The default-value warning *)

(** X14. A default-value warning is never deduplicated: every call enqueues
    its event and records its message among the logged errors.  Because
    failed deliveries are recorded in the same set, a warning whose message
    is [statsig::log_event_failed] stops failed deliveries from being stored:
    after it, along any run, a delivery failure leaves the Failure Store and
    the storage as they are. *)
Theorem fallback_always_logs_and_records_message (w : State) (a : Ambient)
    (user : option StatsigUser) (message : string)
    (metadata : gmap string MetaValue) (pending : list Task)
    (ops : list (Ambient * Op)) (oldQueue : list Event) (error : Failure)
    (a' : Ambient) :
  let r := logConfigDefaultValueFallback a user message metadata w in
  let w' := (run ops (r.1, pending)).1 in
  pipeline r.1
  = pipeline w ++
      [stamped a (makeLogEvent (clock a 0) DEFAULT_VALUE_WARNING user
                    _statsigMetadata (Some message) metadata None)] /\
  message ∈ loggedErrors w' /\
  (message = LOG_FAILURE_EVENT ->
     failedLogEvents (flush_catch oldQueue error a' w') = failedLogEvents w' /\
     localStorage (flush_catch oldQueue error a' w') = localStorage w').
Proof.
  cbv zeta.
  assert (message ∈ loggedErrors
            (run ops ((logConfigDefaultValueFallback a user message metadata w).1,
                      pending)).1) as Hin.
  { destruct (run_grows ops
                ((logConfigDefaultValueFallback a user message metadata w).1,
                 pending)) as (_ & Hsub & _).
    apply Hsub. cbn [fst]. unfold logConfigDefaultValueFallback. simpl.
    by apply elem_of_union_l, elem_of_singleton. }
  split_and!; [apply fallback_pipeline | exact Hin |].
  intros ->. unfold flush_catch, _newFailedRequest.
  rewrite bool_decide_eq_true_2; [by destruct (text error)|].
  by destruct (text error).
Qed.

(** ** The size of a batch *)

Lemma step_batch_sizes (sys : State * list Task) (x : Ambient * Op) :
  belowBufferMax sys.1 ->
  Forall (fun b => Z.of_nat (length b) <= Z.max loggingBufferMaxSize 1)
    (batches sys.1) ->
  Forall (fun b => Z.of_nat (length b) <= Z.max loggingBufferMaxSize 1)
    (batches (step sys x).1).
Proof.
  intros Hbuf Hall.
  assert (forall isClosing a w,
            (Z.of_nat (length (queue w)) <= Z.max loggingBufferMaxSize 1) ->
            Forall (fun b => Z.of_nat (length b) <= Z.max loggingBufferMaxSize 1)
              (batches w) ->
            Forall (fun b => Z.of_nat (length b) <= Z.max loggingBufferMaxSize 1)
              (batches (flush isClosing a w).1)) as Hflush.
  { intros isClosing a w Hq Hw.
    destruct (decide (queue w = [])) as [Hempty|Hne].
    - by rewrite flush_empty.
    - destruct (flush_nonempty isClosing a w Hne) as [_ ->].
      apply Forall_app; split; [done|]. by constructor. }
  assert (Z.of_nat (length (queue sys.1)) <= Z.max loggingBufferMaxSize 1) as Hq.
  { destruct Hbuf as [Hlt| ->]; simpl; lia. }
  assert (forall a event,
            Forall (fun b => Z.of_nat (length b) <= Z.max loggingBufferMaxSize 1)
              (batches (log a event sys.1).1)) as Hlog.
  { intros a event. unfold log. case_bool_decide; [|done].
    apply Hflush; [|done]. simpl. rewrite length_app. simpl.
    destruct Hbuf as [Hlt| ->]; simpl; lia. }
  destruct x as [a op].
  destruct op as [event|user message metadata|isClosing| |i o];
    unfold step; cbn [fst snd].
  - apply Hlog.
  - unfold logConfigDefaultValueFallback. cbn [fst]. apply Hlog.
  - by apply Hflush.
  - destruct (localStorage sys.1 !! STATSIG_LOCAL_STORAGE_LOGGING_REQUEST_KEY)
      as [failedRequests|] eqn:E.
    + destruct (sendSavedRequests_present sys.1 failedRequests E) as (_ & Hn & _).
      unfold batches. rewrite Hn, fmap_app. apply Forall_app; split; [done|].
      rewrite <- list_fmap_compose. apply Forall_fmap, Forall_true.
      intros b. simpl. lia.
    + by rewrite sendSavedRequests_absent.
  - destruct (sys.2 !! i) as [t|]; cbn [fst snd]; [|done].
    unfold batches.
    replace (network (settle t o a sys.1)) with (network sys.1); [done|].
    destruct t as [oldQueue isClosing|requestBody fireAndForget], o as [|error];
      cbn [settle];
      rewrite ?flush_finally_network, ?flush_catch_network; try done.
    unfold replay_catch. destruct fireAndForget; [done|].
    by destruct (addFailedRequest_frame requestBody (clock a 0) sys.1)
      as (_ & _ & _ & _ & -> & _).
Qed.

(** X15. No batch handed to the transport by [flush] is larger than the
    buffer: in every reachable state each batch has at most
    [loggingBufferMaxSize] events (at most one when that option is below
    one). *)
Theorem batches_never_exceed_buffer_max (storage : gmap string string)
    (ops : list (Ambient * Op)) :
  let w := (run ops (constructor storage, [])).1 in
  Forall (fun b => Z.of_nat (length b) <= Z.max loggingBufferMaxSize 1)
    (batches w).
Proof.
  cbv zeta.
  assert (belowBufferMax (run ops (constructor storage, [])).1 /\
          Forall (fun b => Z.of_nat (length b) <= Z.max loggingBufferMaxSize 1)
            (batches (run ops (constructor storage, [])).1)) as [_ Hall];
    [|exact Hall].
  induction ops as [|x ops [IHb IHa]] using rev_ind.
  - split; [by right | constructor].
  - rewrite run_snoc. split;
      [by apply step_belowBufferMax | by apply step_batch_sizes].
Qed.

(** ** The dedup check along a sequence of calls *)

(** X16. However the dedup check is called, for whatever keys and at
    whatever times, even with a clock that jumps, two answers true for the
    same key other than [__proto__] are never 600 000 ms or less apart: each
    time at which the check of the key answered true is more than 600 000 ms
    after the previous one, the first being that far after the time recorded
    at the start, if any. *)
Theorem logged_times_are_spaced (key : string) (probes : list (string * Z))
    (w : State) (Hkey : key <> "__proto__") :
  spacedFrom (exposureDedupeKeys w !! key) (loggedTimes key probes w).
Proof.
  revert w. induction probes as [|p rest IH]; intros w; [done|].
  cbn [loggedTimes]. specialize (IH (_shouldLogExposure p.1 p.2 w).2).
  case_bool_decide as Hp; cbn [andb].
  - rewrite Hp in *.
    destruct (shouldLogExposure_cases key p.2 w)
      as [[E Hr]|[(t & E & Hw & Hr)|(t & E & Hw & Hr)]];
      rewrite Hr in *; rewrite E; cbn [fst snd app] in *.
    + rewrite assign_fresh in * by done.
      simpl in IH. rewrite lookup_insert_eq in IH. by split.
    + by rewrite E in IH.
    + simpl in IH. rewrite lookup_insert_eq in IH. by split.
  - cbn [app]. by rewrite shouldLogExposure_other in IH.
Qed.

End MoreLoggerFacts.

(* ===================================================================== *)
(** * Further properties of LogEvent                                      *)
(* ===================================================================== *)

Section MoreLogEventFacts.
Import LogEvent.

(** X17. [setUser(null)] does not store [null]: the event gets a new, empty
    object as its user, and [toJsonObject] shows that object where a newly
    built event shows [null]. *)
Theorem setUser_null_stores_empty_object (h : Heap) (name : string) (now : Z) :
  let built := constructor name now h in
  let s := setUser None built.1 built.2 in
  toJsonObject built.2 !! "user" = Some VNull /\
  exists l : loc,
    user s.2 = Some l /\
    toJsonObject s.2 !! "user" = Some (VRef l) /\
    deref s.1 (toJsonObject s.2 !! "user") = Some ∅.
Proof.
  cbv zeta. split; [done|].
  exists (fresh (dom (constructor name now h).1)).
  split_and!; [done | done |].
  change (deref ?h' _) with (h' !! fresh (dom (constructor name now h).1)).
  rewrite setUser_stored. simpl. by rewrite delete_empty.
Qed.

(** X18. Two events never share their metadata object: of two events built
    one after the other, a value added to the metadata of the first is read
    back there (under the key [__proto__] nothing is added and that object
    stays empty), the metadata of the second stays empty, and the objects
    that existed before are unchanged. *)
Theorem events_have_their_own_metadata (h : Heap) (name1 name2 : string)
    (now1 now2 : Z) (key : string) (v : Value) (l0 : loc) (o0 : Obj)
    (Hexisting : h !! l0 = Some o0) :
  let first := constructor name1 now1 h in
  let second := constructor name2 now2 first.1 in
  let h' := addStatsigMetadata key v second.1 first.2 in
  statsigMetadata first.2 <> statsigMetadata second.2 /\
  h' !! statsigMetadata first.2
  = Some (if bool_decide (key = "__proto__") then ∅ else {[ key := v ]}) /\
  h' !! statsigMetadata second.2 = Some ∅ /\
  h' !! l0 = Some o0.
Proof.
  cbv zeta. unfold constructor, addStatsigMetadata. cbn [fst snd statsigMetadata].
  set (m1 := fresh (dom h)).
  set (m2 := fresh (dom (<[m1 := ∅]> h))).
  assert (m1 <> m2) as Hne.
  { intros Heq. pose proof (is_fresh (dom (<[m1 := ∅]> h))) as Hfresh.
    fold m2 in Hfresh. rewrite <- Heq in Hfresh. apply Hfresh.
    rewrite dom_insert_L. by apply elem_of_union_l, elem_of_singleton. }
  assert (m1 <> l0) as Hl1.
  { intros <-. unfold m1 in Hexisting. by rewrite fresh_loc_unused in Hexisting. }
  assert (m2 <> l0) as Hl2.
  { intros <-. pose proof (fresh_loc_unused (<[m1 := ∅]> h)) as Hfresh.
    fold m2 in Hfresh. rewrite lookup_insert_ne in Hfresh by done. congruence. }
  split_and!; [done| | |].
  - rewrite lookup_alter_eq, lookup_insert_ne, lookup_insert_eq by done.
    cbn [fmap option_fmap option_map]. f_equal.
  - by rewrite lookup_alter_ne, lookup_insert_eq.
  - by rewrite lookup_alter_ne, !lookup_insert_ne.
Qed.

(** X19. [toJsonObject] does not take a snapshot: the object it returns
    refers to the event's own metadata object, so a value added afterwards
    shows through it (and under the key [__proto__], where nothing is added,
    it shows the metadata as they were); but a later [setUser] gives the
    event a new user object and an object returned earlier keeps referring to
    the former one. *)
Theorem toJsonObject_shares_the_events_objects (h : Heap) (ev : LogEvent)
    (key : string) (v : Value) (newUser : option loc) (m : Obj)
    (l : loc) (o : Obj)
    (Hmetadata : h !! statsigMetadata ev = Some m)
    (Huser : user ev = Some l) (Hstored : h !! l = Some o) :
  let json := toJsonObject ev in
  let s := setUser newUser h ev in
  (key <> "__proto__" ->
     deref (addStatsigMetadata key v h ev) (json !! "statsigMetadata")
     = Some (<[key := v]> m)) /\
  (key = "__proto__" -> m !! key = None ->
     deref (addStatsigMetadata key v h ev) (json !! "statsigMetadata")
     = Some m) /\
  deref s.1 (json !! "user") = Some o /\
  toJsonObject s.2 !! "user" <> json !! "user".
Proof.
  cbv zeta.
  change (toJsonObject ev !! "statsigMetadata")
    with (Some (VRef (statsigMetadata ev))).
  change (toJsonObject ev !! "user") with (Some (ref_or_null (user ev))).
  change (toJsonObject (setUser newUser h ev).2 !! "user")
    with (Some (VRef (fresh (dom h)))).
  rewrite Huser. cbn [deref ref_or_null]. unfold addStatsigMetadata.
  split_and!.
  - intros Hkey. rewrite lookup_alter_eq, Hmetadata. simpl.
    by rewrite assign_fresh.
  - intros -> Hnone. rewrite lookup_alter_eq, Hmetadata. simpl.
    by rewrite assign_proto.
  - rewrite setUser_frame; [done | by eexists].
  - intros [= Heq]. rewrite <- Heq, fresh_loc_unused in Hstored. done.
Qed.

(** X20. [setUser] copies one level only: every property of the user other
    than [privateAttributes] is carried over as it is, so an object-valued
    property of the copy is the very object the caller's user refers to,
    with its content untouched. *)
Theorem setUser_copies_one_level (h : Heap) (ev : LogEvent) (u : loc) (o : Obj)
    (key : string) (c : loc) (nested : Obj)
    (Hu : h !! u = Some o)
    (Hkey : key <> "privateAttributes")
    (Hfield : o !! key = Some (VRef c))
    (Hnested : h !! c = Some nested) :
  let s := setUser (Some u) h ev in
  exists (l : loc) (copy : Obj),
    user s.2 = Some l /\ l <> u /\ l <> c /\
    s.1 !! l = Some copy /\
    copy !! key = Some (VRef c) /\
    s.1 !! c = Some nested.
Proof.
  cbv zeta.
  exists (fresh (dom h)), (delete "privateAttributes" (spread (Some u) h)).
  split_and!.
  - done.
  - intros Heq. rewrite <- Heq, fresh_loc_unused in Hu. done.
  - intros Heq. rewrite <- Heq, fresh_loc_unused in Hnested. done.
  - apply setUser_stored.
  - rewrite lookup_delete_ne by done. simpl. by rewrite Hu.
  - rewrite setUser_frame; [done | by eexists].
Qed.

Lemma invoke_sanitized (m : Method) (s : Heap * LogEvent) :
  sanitized s ->
  sanitized (invoke m s) /\
  eventName (invoke m s).2 = eventName s.2 /\ time (invoke m s).2 = time s.2.
Proof.
  intros [Hmeta Huser]. destruct m as [c|newUser]; cbn [invoke].
  - destruct (call_keeps_user c s) as [Hu Hm].
    split; [|by destruct c]. split.
    + rewrite Hm. destruct c; simpl; try done.
      unfold addStatsigMetadata. rewrite lookup_alter_eq.
      destruct Hmeta as [o ->]. by eexists.
    + intros l Hl. rewrite Hu in Hl. rewrite Hm.
      destruct (Huser l Hl) as [Hne (o & Ho & Hp)].
      split; [done|]. exists o. split; [|done].
      by rewrite call_frame.
  - split; [|done]. split.
    + change (statsigMetadata (setUser newUser s.1 s.2).2)
        with (statsigMetadata s.2).
      by rewrite setUser_frame.
    + intros l Hl.
      change (user (setUser newUser s.1 s.2).2) with (Some (fresh (dom s.1))) in Hl.
      injection Hl as <-.
      change (statsigMetadata (setUser newUser s.1 s.2).2)
        with (statsigMetadata s.2).
      split.
      * intros Heq. rewrite <- Heq, fresh_loc_unused in Hmeta.
        by destruct Hmeta.
      * eexists. split; [apply setUser_stored | apply lookup_delete_eq].
Qed.

(** X21. From its construction on, whatever methods are called on an event
    and in whatever order, with whatever users and metadata keys, the event
    is well formed: its metadata object exists, its user (if it has one) is a
    separate object without [privateAttributes], and its name and time are
    the ones it was built with. *)
Theorem event_stays_sanitized (h : Heap) (name : string) (now : Z)
    (ms : list Method) :
  let s := invokes ms (constructor name now h) in
  sanitized s /\ getName s.2 = name /\ time s.2 = now.
Proof.
  cbv zeta. unfold invokes, getName.
  assert (sanitized (constructor name now h) /\
          eventName (constructor name now h).2 = name /\
          time (constructor name now h).2 = now) as Hstart.
  { split; [|done]. split; simpl; [|done]. rewrite lookup_insert_eq. by eexists. }
  revert Hstart. generalize (constructor name now h).
  induction ms as [|m ms IH]; intros s Hs; [done|].
  simpl. apply IH. destruct Hs as (Hs & Hn & Ht).
  destruct (invoke_sanitized m s Hs) as (Hs' & -> & ->). done.
Qed.

End MoreLogEventFacts.

(* ===================================================================== *)
(** * Properties of the utilities                                         *)
(* ===================================================================== *)

Section UtilsFacts.
Import Utils.

(** X22. Over any storage in which a value that was set is read back,
    [getStableID] is stable: when the generated id is not empty, a second
    call returns the id of the first call and leaves the storage as the
    first call left it, whatever id the generator would draw then; and the
    id returned is never empty. *)
Theorem getStableID_is_stable {Store : Type}
    (localGet : string -> Store -> option string)
    (localSet : string -> string -> Store -> Store)
    (uuid1 uuid2 : string) (st : Store)
    (Hreadback : forall key value s, localGet key (localSet key value s) = Some value)
    (Huuid : uuid1 <> "") :
  let first := getStableID localGet localSet uuid1 st in
  getStableID localGet localSet uuid2 first.2 = first /\
  first.1 <> "".
Proof.
  cbv zeta. unfold getStableID.
  destruct (localGet STATSIG_KEY_STABLE_ID st) as [[|c r]|] eqn:E; cbn [fst snd].
  - rewrite Hreadback. destruct uuid1; by split.
  - rewrite E. by split.
  - rewrite Hreadback. destruct uuid1; by split.
Qed.

Lemma lowerChar_idempotent (c : ascii) : lowerChar (lowerChar c) = lowerChar c.
Proof.
  destruct c as [[] [] [] [] [] [] [] []]; vm_compute; reflexivity.
Qed.

Lemma toLowerCase_idempotent (s : string) :
  toLowerCase (toLowerCase s) = toLowerCase s.
Proof.
  induction s as [|c r IH]; simpl; [done|].
  by rewrite lowerChar_idempotent, IH.
Qed.

(** X23. [getBoolValue] reads a boolean and the text of a boolean back as
    that boolean, ignores the case of letters, and answers [null] for [null]
    and [undefined]; when it answers a boolean, the lower-cased text of its
    argument is the text of that boolean. *)
Theorem getBoolValue_reads_booleans (b : bool) (s : string) (val : JsValue) :
  getBoolValue JsNullish = None /\
  getBoolValue (JsBool b) = Some b /\
  getBoolValue (JsString (StatsigLogger.String_of_bool b)) = Some b /\
  getBoolValue (JsString s) = getBoolValue (JsString (toLowerCase s)) /\
  (getBoolValue val = Some b ->
   toLowerCase (toString val) = StatsigLogger.String_of_bool b).
Proof.
  split_and!.
  - done.
  - by destruct b.
  - by destruct b.
  - unfold getBoolValue. simpl. by rewrite toLowerCase_idempotent.
  - unfold getBoolValue. destruct val as [|b'|s'|text]; [done|..];
      (destruct (String.eqb _ "true") eqn:Et;
       [apply String.eqb_eq in Et; intros [= <-]; exact Et|];
       destruct (String.eqb _ "false") eqn:Ef;
       [apply String.eqb_eq in Ef; intros [= <-]; exact Ef|done]).
Qed.

End UtilsFacts.

(* ===================================================================== *)
(** * Further concrete runs                                               *)
(* ===================================================================== *)

Section MoreScenarios.
Import StatsigLogger.

(** An event logged on a page whose location has a query and a fragment, and
    the same event logged where no location can be read. *)
Lemma log_stamps_page_before_query_witness :
  let click := {| label := "click"; currentPage := None |} in
  let w := @constructor jsonHost ∅ in
  href (browsing 1000) = Some "https://example.com/app?tab=1#top" /\
  href (teardown 1000) = None /\
  pipeline (@log jsonHost (browsing 1000) click w).1
  = [{| label := "click"; currentPage := Some "https://example.com/app" |}] /\
  pipeline (@log jsonHost (teardown 1000) click w).1 = [click].
Proof.
  cbv zeta.
  set (click := {| label := "click"; currentPage := None |}).
  destruct (log_stamps_page_before_query (H := jsonHost)
              (@constructor jsonHost ∅) (browsing 1000) click)
    as (Hlog & _ & Hpage).
  destruct (log_stamps_page_before_query (H := jsonHost)
              (@constructor jsonHost ∅) (teardown 1000) click)
    as (Hlog' & Hplain & _).
  split_and!; [reflexivity | reflexivity | |].
  - destruct (Hpage "https://example.com/app?tab=1#top" eq_refl eq_refl)
      as (page & rest & Hstamped & _).
    rewrite Hlog. reflexivity.
  - rewrite Hlog', Hplain by (by right). reflexivity.
Defined.

(** Three events, a flush in between and its delivery: all three are
    accounted for, in order. *)
Lemma events_conserved_without_terminating_flush_witness :
  let ops := [(browsing 0, @OpLog nameHost "click");
              (browsing 1, @OpLog nameHost "view");
              (browsing 2, @OpFlush nameHost false);
              (browsing 3, @OpSettle nameHost 0 Delivered);
              (browsing 4, @OpLog nameHost "scroll")] in
  let w := (run ops (start, [])).1 in
  Forall (fun x => isTerminating x = false) ops /\
  concat (batches w) ++ queue w = ["click"; "view"; "scroll"] /\
  concat (batches (flush false (browsing 5) w).1) = ["click"; "view"; "scroll"].
Proof.
  cbv zeta.
  assert (Forall (fun x => @isTerminating nameHost x = false)
            [(browsing 0, @OpLog nameHost "click");
             (browsing 1, @OpLog nameHost "view");
             (browsing 2, @OpFlush nameHost false);
             (browsing 3, @OpSettle nameHost 0 Delivered);
             (browsing 4, @OpLog nameHost "scroll")]) as Hgentle
    by (repeat constructor).
  split; [exact Hgentle|].
  exact (events_conserved_without_terminating_flush (H := nameHost) ∅ _
           (browsing 5) Hgentle).
Defined.

(** Before any delivery has failed the store is within 101 batches. *)
Lemma failure_store_bounds_witness :
  let ops := [(browsing 0, @OpLog nameHost "click");
              (browsing 0, @OpFlush nameHost true)] in
  let w := (run ops (start, [])).1 in
  (LOG_FAILURE_EVENT ∉ loggedErrors w) /\
  Z.of_nat (length (failedLogEvents w)) <= 101.
Proof.
  cbv zeta.
  destruct (failure_store_bounds (H := nameHost) ∅
              [(browsing 0, @OpLog nameHost "click");
               (browsing 0, @OpFlush nameHost true)])
    as (_ & _ & _ & Hnew).
  assert (LOG_FAILURE_EVENT
            ∉ loggedErrors
                (run [(browsing 0, @OpLog nameHost "click");
                      (browsing 0, @OpFlush nameHost true)] (start, [])).1) as Hnot.
  { apply (bool_decide_unpack _). vm_compute. exact I. }
  split; [exact Hnot | exact (Hnew Hnot)].
Defined.

(** Starting on a short payload, through a replay and a failed delivery. *)
Lemma persisted_payload_stays_within_limit_witness :
  let storage : gmap string string :=
    {[ "STATSIG_LOCAL_STORAGE_LOGGING_REQUEST" := "saved" ]} in
  let ops := (browsing 0, @OpSendSavedRequests nameHost)
             :: failedDelivery 1000 "click" in
  let w := (run ops (@constructor nameHost storage, [])).1 in
  Forall (fun t => fireAndForgetOf t = false) (sendSavedRequests w).2.
Proof.
  cbv zeta.
  apply (persisted_payload_stays_within_limit (H := nameHost)
           {[ "STATSIG_LOCAL_STORAGE_LOGGING_REQUEST" := "saved" ]}
           ((browsing 0, @OpSendSavedRequests nameHost)
            :: failedDelivery 1000 "click")).
  intros failedRequests Hload.
  assert (failedRequests = "saved") as ->
    by (rewrite lookup_singleton_eq in Hload; by injection Hload).
  vm_compute. discriminate.
Defined.

(** The stable id stored beside the logger's key is left alone. *)
Lemma other_storage_keys_untouched_witness :
  let storage : gmap string string :=
    <[ "statsig_stable_id" := "id-1" ]>
      {[ "STATSIG_LOCAL_STORAGE_LOGGING_REQUEST" := "saved" ]} in
  let ops := (browsing 0, @OpSendSavedRequests nameHost)
             :: failedDelivery 1000 "click" in
  "statsig_stable_id" <> "STATSIG_LOCAL_STORAGE_LOGGING_REQUEST" /\
  localStorage (run ops (@constructor nameHost storage, [])).1
    !! "statsig_stable_id" = Some "id-1".
Proof.
  cbv zeta.
  assert ("statsig_stable_id" <> "STATSIG_LOCAL_STORAGE_LOGGING_REQUEST")
    as Hother by discriminate.
  split; [exact Hother|].
  rewrite (other_storage_keys_untouched (H := nameHost) _ _ _ Hother).
  apply lookup_insert_eq.
Defined.

(** One swept event, persisted, and a new process on the same storage. *)
Lemma persisted_batches_replayed_after_restart_witness :
  let w := sweep 1 start in
  let r := sendSavedRequests
             (@constructor nameHost (localStorage (_saveFailedRequests w))) in
  failedLogEvents w
    = [{| events := ["click"]; statsigMetadata := tt; time := 0 |}] /\
  network r.1
    = [@PostSavedRequest nameHost
         {| events := ["click"]; statsigMetadata := tt; time := 0 |}].
Proof.
  cbv zeta.
  assert (failedLogEvents (sweep 1 start)
          = [{| events := ["click"]; statsigMetadata := tt; time := 0 |}]) as E
    by (vm_compute; reflexivity).
  split; [exact E|].
  destruct (persisted_batches_replayed_after_restart (H := nameHost)
              (sweep 1 start)) as (Hn & _).
  - vm_compute. discriminate.
  - vm_compute. discriminate.
  - vm_compute. reflexivity.
  - rewrite Hn, E. reflexivity.
Defined.


Lemma layerDedupeKey_injective_witness :
  layerDedupeKey "layer" "rule" "exp" "param" true "Network"
  = "layer|rule|exp|param|true|Network" /\
  ("layer" = "layer" /\ "rule" = "rule" /\ "exp" = "exp" /\ "param" = "param" /\
   true = true /\ "Network" = "Network").
Proof.
  split; [reflexivity|].
  exact (layerDedupeKey_injective "layer" "rule" "exp" "param" true "Network"
           "layer" "rule" "exp" "param" true "Network"
           eq_refl eq_refl eq_refl eq_refl eq_refl eq_refl eq_refl eq_refl
           eq_refl).
Defined.

(** Two parameters of one layer, read one second apart: both are logged. *)
Lemma layer_exposures_suppress_only_repeats_witness :
  let details := EvaluationDetails.mk "Network" 900 in
  let first := @logLayerExposure nameHost (browsing 1000) (Some "user-1")
                 "layer" "rule" [] "exp" "color" true details false start in
  let second := @logLayerExposure nameHost (browsing 2000) (Some "user-1")
                  "layer" "rule" [] "exp" "size" true details false first.1 in
  length (pipeline second.1) = 2%nat.
Proof.
  cbv zeta.
  destruct (layer_exposures_suppress_only_repeats (H := nameHost) start
              (browsing 1000) (browsing 2000) (Some "user-1") []
              "layer" "rule" "exp" "color" true
              "layer" "rule" "exp" "size" true
              (EvaluationDetails.mk "Network" 900) false
              eq_refl eq_refl eq_refl eq_refl eq_refl eq_refl eq_refl eq_refl
              eq_refl eq_refl ltac:(simpl; lia))
    as (_ & _ & Hboth).
  apply Hboth. discriminate.
Defined.

(** A warning that carries the failure key, then a failed delivery. *)
Lemma fallback_always_logs_and_records_message_witness :
  let r := @logConfigDefaultValueFallback nameHost (browsing 0) None
             LOG_FAILURE_EVENT ∅ start in
  let w' := (run (failedDelivery 1000 "click") (r.1, r.2)).1 in
  failedLogEvents w' = [] /\
  failedLogEvents (@flush_catch nameHost ["view"] networkDown (browsing 9000) w')
  = failedLogEvents w'.
Proof.
  cbv zeta. split; [vm_compute; reflexivity|].
  destruct (fallback_always_logs_and_records_message (H := nameHost) start
              (browsing 0) None LOG_FAILURE_EVENT ∅
              (@logConfigDefaultValueFallback nameHost (browsing 0) None
                 LOG_FAILURE_EVENT ∅ start).2
              (failedDelivery 1000 "click") ["view"] networkDown (browsing 9000))
    as (_ & _ & Hblocked).
  exact (proj1 (Hblocked eq_refl)).
Defined.

(** Checks of one key at 1000, 2000 and 601 001, with a check of another key
    in between: the key is logged at 1000 and at 601 001.  The same checks of
    [__proto__] are all answered true, 1000 ms apart. *)
Lemma logged_times_are_spaced_witness :
  let probes := [("gate|true", 1000); ("gate|true", 2000); ("config", 3000);
                 ("gate|true", 601001)] in
  "gate|true" <> "__proto__" /\
  loggedTimes "gate|true" probes start = [1000; 601001] /\
  spacedFrom (exposureDedupeKeys start !! "gate|true")
    (loggedTimes "gate|true" probes start) /\
  loggedTimes "__proto__" [("__proto__", 1000); ("__proto__", 2000)] start
  = [1000; 2000].
Proof.
  cbv zeta.
  assert ("gate|true" <> "__proto__") as Hkey by discriminate.
  split_and!; [exact Hkey | reflexivity | | reflexivity].
  exact (logged_times_are_spaced (H := nameHost) "gate|true"
           [("gate|true", 1000); ("gate|true", 2000); ("config", 3000);
            ("gate|true", 601001)] start Hkey).
Defined.

End MoreScenarios.

Section MoreObjectScenarios.
Import LogEvent.

Lemma events_have_their_own_metadata_witness :
  let first := constructor "click" 1000 callerHeap in
  let second := constructor "view" 2000 first.1 in
  let h' := addStatsigMetadata "currentPage" (VStr "/app") second.1 first.2 in
  let h'' := addStatsigMetadata "__proto__" (VStr "/app") second.1 first.2 in
  callerHeap !! 1%positive = Some callerUser /\
  h' !! statsigMetadata first.2 = Some {[ "currentPage" := VStr "/app" ]} /\
  h' !! statsigMetadata second.2 = Some ∅ /\
  h'' !! statsigMetadata first.2 = Some ∅.
Proof.
  cbv zeta.
  assert (callerHeap !! 1%positive = Some callerUser) as Hexisting
    by (vm_compute; reflexivity).
  destruct (events_have_their_own_metadata callerHeap "click" "view" 1000 2000
              "currentPage" (VStr "/app") 1%positive callerUser Hexisting)
    as (_ & Hfirst & Hsecond & _).
  destruct (events_have_their_own_metadata callerHeap "click" "view" 1000 2000
              "__proto__" (VStr "/app") 1%positive callerUser Hexisting)
    as (_ & Hproto & _).
  split_and!; [exact Hexisting | exact Hfirst | exact Hsecond | exact Hproto].
Defined.

Lemma toJsonObject_shares_the_events_objects_witness :
  let built := constructor "click" 1000 callerHeap in
  let s := setUser (Some 1%positive) built.1 built.2 in
  let json := toJsonObject s.2 in
  s.1 !! statsigMetadata s.2 = Some ∅ /\
  user s.2 = Some 4%positive /\
  s.1 !! 4%positive = Some (<["userID" := VStr "u-1"]> ∅) /\
  deref (addStatsigMetadata "currentPage" (VStr "/app") s.1 s.2)
    (json !! "statsigMetadata")
  = Some (<["currentPage" := VStr "/app"]> ∅) /\
  deref (addStatsigMetadata "__proto__" (VStr "/app") s.1 s.2)
    (json !! "statsigMetadata")
  = Some ∅.
Proof.
  cbv zeta.
  set (s := setUser (Some 1%positive) (constructor "click" 1000 callerHeap).1
              (constructor "click" 1000 callerHeap).2).
  assert (s.1 !! statsigMetadata s.2 = Some ∅) as Hmetadata
    by (vm_compute; reflexivity).
  assert (user s.2 = Some 4%positive) as Huser by (vm_compute; reflexivity).
  assert (s.1 !! 4%positive = Some (<["userID" := VStr "u-1"]> ∅)) as Hstored
    by (vm_compute; reflexivity).
  destruct (toJsonObject_shares_the_events_objects s.1 s.2 "currentPage"
              (VStr "/app") None ∅ 4%positive (<["userID" := VStr "u-1"]> ∅)
              Hmetadata Huser Hstored) as (Hlive & _ & _).
  destruct (toJsonObject_shares_the_events_objects s.1 s.2 "__proto__"
              (VStr "/app") None ∅ 4%positive (<["userID" := VStr "u-1"]> ∅)
              Hmetadata Huser Hstored) as (_ & Hproto & _).
  split_and!; [exact Hmetadata | exact Huser | exact Hstored | |].
  - apply Hlive. discriminate.
  - apply Hproto; reflexivity.
Defined.

Lemma setUser_copies_one_level_witness :
  let built := constructor "click" 1000 nestedHeap in
  let s := setUser (Some 1%positive) built.1 built.2 in
  built.1 !! 2%positive = Some (<["privateAttributes" := VStr "secret"]> ∅) /\
  exists (l : loc) (copy : Obj),
    user s.2 = Some l /\ s.1 !! l = Some copy /\
    copy !! "custom" = Some (VRef 2%positive) /\
    s.1 !! 2%positive = Some (<["privateAttributes" := VStr "secret"]> ∅).
Proof.
  cbv zeta.
  assert ((constructor "click" 1000 nestedHeap).1 !! 2%positive
          = Some (<["privateAttributes" := VStr "secret"]> ∅)) as Hnested
    by (vm_compute; reflexivity).
  split; [exact Hnested|].
  destruct (setUser_copies_one_level
              (constructor "click" 1000 nestedHeap).1
              (constructor "click" 1000 nestedHeap).2
              1%positive (<["custom" := VRef 2%positive]> ∅) "custom"
              2%positive (<["privateAttributes" := VStr "secret"]> ∅))
    as (l & copy & Huser & _ & _ & Hstored & Hfield & Hkept).
  - vm_compute. reflexivity.
  - discriminate.
  - vm_compute. reflexivity.
  - exact Hnested.
  - exists l, copy. split_and!; assumption.
Defined.

End MoreObjectScenarios.

Section MoreUtilsScenarios.
Import Utils.

Lemma getStableID_is_stable_witness :
  let first := getStableID mapGet mapSet "id-1" ∅ in
  first.1 = "id-1" /\
  getStableID mapGet mapSet "id-2" first.2 = first.
Proof.
  cbv zeta. split; [reflexivity|].
  apply (getStableID_is_stable mapGet mapSet "id-1" "id-2" ∅).
  - intros key value s. apply lookup_insert_eq.
  - discriminate.
Defined.

Lemma getBoolValue_reads_booleans_witness :
  getBoolValue (JsString "TRUE") = Some true /\
  toLowerCase (toString (JsString "TRUE")) = "true".
Proof.
  split; [reflexivity|].
  destruct (getBoolValue_reads_booleans true "TRUE" (JsString "TRUE"))
    as (_ & _ & _ & _ & Htext).
  exact (Htext eq_refl).
Defined.

End MoreUtilsScenarios.
